(** * Neural machine translation with attention

    A shallow embedding of the tutorial notebook
    [docs/tutorials/nmt_with_attention.ipynb]: sentence preprocessing,
    Bahdanau attention, the decoder step, the masked loss, the
    teacher-forced training step, checkpointing and greedy decoding.

    Python [str] values are lists of Unicode code points, tensors are
    nested lists of reals (the arithmetic is exact; the scores that
    enter the loss may also be NaN), dictionaries are finite maps, and
    code that may raise returns an outcome.  Services of the Python
    runtime and of the deep-learning framework that the notebook only
    calls (Unicode tables, trainable layers, automatic differentiation,
    the optimizer) are parameters of the sections that use them. *)

From Stdlib Require Import Reals Lra Lia List ZArith NArith Bool.
From Stdlib Require Import Strings.String Strings.Ascii DecimalString.
From Stdlib Require Import FunctionalExtensionality.
From stdpp Require Import base gmap list.
Import ListNotations.

Abbreviation length := List.length.

(** ** Outcomes of Python code that may raise *)

Module Py.

(** The key of a failed dictionary lookup: a word or a token id. *)
Inductive key : Type :=
  | StrKey (w : list N)
  | IntKey (n : nat).

Inductive exn : Type :=
  | KeyError (k : key)
  | ZeroDivisionError
  | TypeError
  | ValueError
  | InvalidArgumentError
  | NotFoundError.

Inductive outcome (A : Type) : Type :=
  | Returns (a : A)
  | Raises (e : exn).
Arguments Returns {A} _.
Arguments Raises {A} _.

Definition bind {A B : Type} (m : outcome A) (k : A -> outcome B)
  : outcome B :=
  match m with
  | Returns a => k a
  | Raises e => Raises e
  end.

(** [d[k]] on a dictionary with string keys. *)
Definition getitem_str {V : Type} (d : gmap (list N) V) (k : list N)
  : outcome V :=
  match d !! k with
  | Some v => Returns v
  | None => Raises (KeyError (StrKey k))
  end.

(** [d[k]] on a dictionary with integer keys. *)
Definition getitem_int {V : Type} (d : gmap nat V) (k : nat) : outcome V :=
  match d !! k with
  | Some v => Returns v
  | None => Raises (KeyError (IntKey k))
  end.

(** The results of a sequence of computations, or the first error. *)
Fixpoint collect {A : Type} (l : list (outcome A)) : outcome (list A) :=
  match l with
  | [] => Returns []
  | m :: l' =>
      bind m (fun a => bind (collect l') (fun rest => Returns (a :: rest)))
  end.

Lemma bind_returns {A B : Type} (a : A) (k : A -> outcome B) :
  bind (Returns a) k = k a.
Proof. reflexivity. Qed.

Lemma getitem_str_some {V : Type} (d : gmap (list N) V) (k : list N)
    (v : V) :
  d !! k = Some v -> getitem_str d k = Returns v.
Proof. unfold getitem_str. now intros ->. Qed.

Lemma getitem_int_some {V : Type} (d : gmap nat V) (k : nat) (v : V) :
  d !! k = Some v -> getitem_int d k = Returns v.
Proof. unfold getitem_int. now intros ->. Qed.

End Py.

(** ** Text: [unicode_to_ascii] and [preprocess_sentence] *)

Module Text.

Local Open Scope N_scope.

(** A string literal of the notebook, as code points. *)
Definition lit (s : string) : list N :=
  List.map N_of_ascii (list_ascii_of_string s).

(** [str.isspace] on one code point (the whitespace set of CPython). *)
Definition is_space (c : N) : bool :=
  ((9 <=? c) && (c <=? 13)) || ((28 <=? c) && (c <=? 31)) || (c =? 32)
  || (c =? 133) || (c =? 160) || (c =? 5760)
  || ((8192 <=? c) && (c <=? 8202)) || (c =? 8232) || (c =? 8233)
  || (c =? 8239) || (c =? 8287) || (c =? 12288).

Fixpoint lstrip (w : list N) : list N :=
  match w with
  | [] => []
  | c :: w' => if is_space c then lstrip w' else w
  end.

Fixpoint rstrip (w : list N) : list N :=
  match w with
  | [] => []
  | c :: w' =>
      match rstrip w' with
      | [] => if is_space c then [] else [c]
      | r => c :: r
      end
  end.

(** [w.strip()] *)
Definition strip (w : list N) : list N := rstrip (lstrip w).

(** The character class [[?.!,¿]]. *)
Definition is_punct (c : N) : bool :=
  (c =? 63) || (c =? 46) || (c =? 33) || (c =? 44) || (c =? 191).

(** The character class [[" "]]: a double quote or a space. *)
Definition is_quote_or_space (c : N) : bool := (c =? 34) || (c =? 32).

Definition is_lower_az (c : N) : bool := (97 <=? c) && (c <=? 122).
Definition is_upper_AZ (c : N) : bool := (65 <=? c) && (c <=? 90).

(** The character class [[a-zA-Z?.!,¿]]; the pass uses its complement. *)
Definition is_kept (c : N) : bool :=
  is_lower_az c || is_upper_AZ c || is_punct c.

Definition not_kept (c : N) : bool := negb (is_kept c).

(** [re.sub(r"([cls])", r" \1 ", w)]: every character of the class is
    replaced by itself between two spaces. *)
Definition re_sub_pad (cls : N -> bool) (w : list N) : list N :=
  flat_map (fun c => if cls c then [32; c; 32] else [c]) w.

(** [re.sub(r"[cls]+", repl, w)]: scanning from the left, every maximal
    run of characters of the class is replaced by [repl].  [in_run] says
    that the previous character belonged to the run being replaced. *)
Fixpoint re_sub_runs_from (cls : N -> bool) (repl : list N)
    (in_run : bool) (w : list N) : list N :=
  match w with
  | [] => []
  | c :: w' =>
      if cls c
      then (if in_run then [] else repl) ++ re_sub_runs_from cls repl true w'
      else c :: re_sub_runs_from cls repl false w'
  end.

Definition re_sub_runs (cls : N -> bool) (repl : list N) (w : list N)
  : list N := re_sub_runs_from cls repl false w.

(** [sentence.split(' ')]: split at every single space; adjacent spaces
    give empty words. *)
Fixpoint split_space (w : list N) : list (list N) :=
  match w with
  | [] => [[]]
  | c :: w' =>
      if c =? 32 then [] :: split_space w'
      else match split_space w' with
           | [] => [[c]]
           | x :: xs => (c :: x) :: xs
           end
  end.

(** No two adjacent spaces. *)
Fixpoint single_spaces (w : list N) : bool :=
  match w with
  | [] => true
  | c :: w' =>
      match w' with
      | d :: _ => negb ((c =? 32) && (d =? 32)) && single_spaces w'
      | [] => true
      end
  end.

Definition starts_with_space (w : list N) : bool :=
  match w with
  | c :: _ => c =? 32
  | [] => false
  end.

Section Preprocess.

(** Services of the Python runtime: [str.lower], [unicodedata.normalize]
    and [unicodedata.category] (the Unicode character database). *)
Variable lower : list N -> list N.
Variable normalize : string -> list N -> list N.
Variable category : N -> string.

(** [''.join(c for c in unicodedata.normalize('NFD', s)
             if unicodedata.category(c) != 'Mn')] *)
Definition unicode_to_ascii (s : list N) : list N :=
  List.filter (fun c => negb (String.eqb (category c) "Mn"))
    (normalize "NFD" s).

(** The sentence between the two tokens. *)
Definition clean_sentence (w : list N) : list N :=
  let w := unicode_to_ascii (strip (lower w)) in
  let w := re_sub_pad is_punct w in
  let w := re_sub_runs is_quote_or_space [32] w in
  let w := re_sub_runs not_kept [32] w in
  strip w.

Definition preprocess_sentence (w : list N) : list N :=
  let w := clean_sentence w in
  lit "<start> " ++ w ++ lit " <end>".

(** The passes in the order in which the specification lists them:
    lowercase and strip, drop the accents, pad the punctuation, replace
    the runs of other characters by one space, collapse repeated
    spaces, strip. *)
Definition clean_sentence_spec (w : list N) : list N :=
  let w := strip (lower w) in
  let w := unicode_to_ascii w in
  let w := re_sub_pad is_punct w in
  let w := re_sub_runs not_kept [32] w in
  let w := re_sub_runs (fun c => c =? 32) [32] w in
  strip w.

Definition preprocess_sentence_spec (w : list N) : list N :=
  lit "<start> " ++ clean_sentence_spec w ++ lit " <end>".

End Preprocess.

(** The Unicode services restricted to ASCII text, where lowercasing
    shifts [A-Z], normalisation changes nothing and no character is a
    combining mark (the category is only ever compared with [Mn], so a
    coarse one is enough). *)
Definition ascii_lower (w : list N) : list N :=
  List.map (fun c => if is_upper_AZ c then c + 32 else c) w.
Definition ascii_normalize (form : string) (w : list N) : list N := w.
Definition ascii_category (c : N) : string :=
  if is_upper_AZ c then "Lu"%string
  else if is_lower_az c then "Ll"%string
  else if (48 <=? c) && (c <=? 57) then "Nd"%string
  else if c =? 32 then "Zs"%string
  else "Po"%string.

(** *** Facts about the passes *)

(** Boolean range tests on code points, decided by linear arithmetic. *)
Ltac class_lia :=
  repeat match goal with
    | H : _ = false |- _ => apply not_true_iff_false in H
    | |- _ = false => apply not_true_iff_false; intro
    end;
  rewrite ?orb_true_iff, ?andb_true_iff, ?negb_true_iff,
    ?N.leb_le, ?N.eqb_eq in *;
  lia.

Lemma is_kept_not_space (c : N) : is_kept c = true -> (c =? 32) = false.
Proof.
  unfold is_kept, is_lower_az, is_upper_AZ, is_punct. intros H. class_lia.
Qed.

Lemma is_kept_not_is_space (c : N) : is_kept c = true -> is_space c = false.
Proof.
  unfold is_kept, is_lower_az, is_upper_AZ, is_punct, is_space. intros H.
  class_lia.
Qed.

Lemma quote_or_space_not_kept (c : N) :
  is_quote_or_space c = true -> not_kept c = true.
Proof.
  unfold not_kept, is_kept, is_lower_az, is_upper_AZ, is_punct,
    is_quote_or_space.
  intros H. apply negb_true_iff. class_lia.
Qed.

Section Runs.

Variable cls : N -> bool.
Variable sp : N.
Hypothesis cls_sp : cls sp = true.

(** A pass that replaces runs by [sp] copies the other characters. *)
Lemma in_re_sub_runs_from (b : bool) (w : list N) (c : N) :
  In c (re_sub_runs_from cls [sp] b w) -> c = sp \/ (In c w /\ cls c = false).
Proof.
  revert b. induction w as [|d w IH]; intros b; simpl; [tauto|].
  destruct (cls d) eqn:Hd.
  - intros H. apply in_app_or in H. destruct H as [H|H].
    + destruct b; simpl in H; [tauto|]. destruct H as [H|[]]. now left.
    + apply IH in H. tauto.
  - simpl. intros [->|H]; [right; tauto|]. apply IH in H. tauto.
Qed.

(** A smaller class whose runs were already replaced by [sp] makes no
    difference to the pass. *)
Lemma re_sub_runs_from_absorb (cls' : N -> bool) :
  (forall c, cls' c = true -> cls c = true) ->
  forall (w : list N) (b b' : bool), (b' = true -> b = true) ->
  re_sub_runs_from cls [sp] b (re_sub_runs_from cls' [sp] b' w)
  = re_sub_runs_from cls [sp] b w.
Proof.
  intros Hsub. induction w as [|c w IH]; intros b b' Hb; simpl; [reflexivity|].
  destruct (cls' c) eqn:Hc'.
  - rewrite (Hsub c Hc'). destruct b'.
    + rewrite (Hb eq_refl). simpl. now apply IH.
    + simpl. rewrite cls_sp. f_equal. now apply IH.
  - simpl. destruct (cls c); f_equal; apply IH; discriminate.
Qed.

End Runs.

Section RunsShape.

Variable cls : N -> bool.
Hypothesis cls_space : cls 32 = true.

(** After the pass no two spaces are adjacent, and a pass that starts
    inside a run does not start its output with a space. *)
Lemma re_sub_runs_from_single (w : list N) (b : bool) :
  single_spaces (re_sub_runs_from cls [32] b w) = true
  /\ (b = true -> starts_with_space (re_sub_runs_from cls [32] b w) = false).
Proof.
  revert b. induction w as [|c w IH]; intros b; simpl; [now split|].
  destruct (cls c) eqn:Hc.
  - destruct (IH true) as [IH1 IH2]. specialize (IH2 eq_refl).
    destruct b; simpl; [now split|]. split; [|discriminate].
    destruct (re_sub_runs_from cls [32] true w) as [|d r] eqn:E; [reflexivity|].
    simpl in IH2. rewrite IH2. simpl. exact IH1.
  - destruct (IH false) as [IH1 _]. split.
    + assert (Hne : (c =? 32) = false).
      { apply N.eqb_neq. intros ->. congruence. }
      simpl. destruct (re_sub_runs_from cls [32] false w); [reflexivity|].
      rewrite Hne. simpl. exact IH1.
    + intros _. simpl. apply N.eqb_neq. intros ->. congruence.
Qed.

End RunsShape.

(** Collapsing repeated spaces changes nothing where none are adjacent. *)
Lemma collapse_spaces_id (w : list N) (b : bool) :
  single_spaces w = true -> (b = true -> starts_with_space w = false) ->
  re_sub_runs_from (fun c => c =? 32) [32] b w = w.
Proof.
  revert b. induction w as [|c w IH]; intros b Hs Hb; simpl; [reflexivity|].
  simpl in Hs. destruct (c =? 32) eqn:Hc.
  - apply N.eqb_eq in Hc. subst c. destruct b.
    + specialize (Hb eq_refl). simpl in Hb. discriminate.
    + simpl. f_equal. destruct w as [|d w]; [reflexivity|].
      apply andb_true_iff in Hs. destruct Hs as [Hd Hs].
      apply IH; [exact Hs|]. intros _. simpl.
      simpl in Hd. now apply negb_true_iff in Hd.
  - f_equal. destruct w as [|d w]; [reflexivity|].
    apply andb_true_iff in Hs. destruct Hs as [_ Hs].
    apply IH; [exact Hs|discriminate].
Qed.

Lemma in_re_sub_pad (cls : N -> bool) (w : list N) (c : N) :
  In c (re_sub_pad cls w) -> c = 32 \/ In c w.
Proof.
  unfold re_sub_pad. rewrite in_flat_map. intros (d & Hd & Hc).
  destruct (cls d); simpl in Hc; intuition (subst; auto).
Qed.

(** *** Facts about [strip] *)

Lemma lstrip_suffix (w : list N) : exists p, w = p ++ lstrip w.
Proof.
  induction w as [|c w [p Hp]]; simpl; [now exists []|].
  destruct (is_space c); [|now exists []].
  exists (c :: p). simpl. now f_equal.
Qed.

Lemma rstrip_prefix (w : list N) : exists s, w = rstrip w ++ s.
Proof.
  induction w as [|c w [s Hs]]; simpl; [now exists []|].
  destruct (rstrip w) as [|d r] eqn:E.
  - destruct (is_space c); [exists (c :: w)|exists w]; reflexivity.
  - exists s. simpl. f_equal. exact Hs.
Qed.

Lemma strip_infix (w : list N) : exists p s, w = p ++ strip w ++ s.
Proof.
  unfold strip. destruct (lstrip_suffix w) as [p Hp].
  destruct (rstrip_prefix (lstrip w)) as [s Hs].
  exists p, s. now rewrite <- Hs.
Qed.

Lemma in_strip (w : list N) (c : N) : In c (strip w) -> In c w.
Proof.
  destruct (strip_infix w) as (p & s & H). intros Hc. rewrite H.
  apply in_or_app. right. apply in_or_app. now left.
Qed.

Lemma single_spaces_app_r (p w : list N) :
  single_spaces (p ++ w) = true -> single_spaces w = true.
Proof.
  induction p as [|c p IH]; [trivial|]. simpl.
  destruct (p ++ w) as [|d r] eqn:E.
  - destruct p; [simpl in E; subst; reflexivity| discriminate].
  - intros H. apply andb_true_iff in H. tauto.
Qed.

Lemma single_spaces_app_l (w s : list N) :
  single_spaces (w ++ s) = true -> single_spaces w = true.
Proof.
  induction w as [|c w IH]; [reflexivity|]. simpl.
  destruct w as [|d w]; [reflexivity|]. simpl app at 1.
  intros H. apply andb_true_iff in H. destruct H as [H1 H2].
  rewrite H1. simpl. apply IH. exact H2.
Qed.

Lemma single_spaces_strip (w : list N) :
  single_spaces w = true -> single_spaces (strip w) = true.
Proof.
  destruct (strip_infix w) as (p & s & H). intros Hw. rewrite H in Hw.
  apply single_spaces_app_r in Hw. now apply single_spaces_app_l in Hw.
Qed.

Lemma is_space_hd_lstrip (w : list N) : is_space (hd 0 (lstrip w)) = false.
Proof.
  induction w as [|c w IH]; [reflexivity|]. simpl.
  destruct (is_space c) eqn:Hc; [exact IH|exact Hc].
Qed.

Lemma hd_rstrip (c : N) (w : list N) :
  is_space c = false -> hd 0 (rstrip (c :: w)) = c.
Proof.
  intros Hc. simpl. destruct (rstrip w); [now rewrite Hc|reflexivity].
Qed.

Lemma is_space_last_rstrip (w : list N) :
  is_space (List.last (rstrip w) 0) = false.
Proof.
  induction w as [|c w IH]; [reflexivity|]. simpl.
  destruct (rstrip w) as [|d r] eqn:E.
  - destruct (is_space c) eqn:Hc; [reflexivity|exact Hc].
  - exact IH.
Qed.

Lemma is_space_hd_strip (w : list N) : is_space (hd 0 (strip w)) = false.
Proof.
  unfold strip. pose proof (is_space_hd_lstrip w) as H.
  destruct (lstrip w) as [|c v]; [reflexivity|].
  simpl in H. now rewrite hd_rstrip.
Qed.

Lemma is_space_last_strip (w : list N) :
  is_space (List.last (strip w) 0) = false.
Proof. apply is_space_last_rstrip. Qed.

Lemma not_space_32 (c : N) : is_space c = false -> (c =? 32) = false.
Proof. unfold is_space. intros H. class_lia. Qed.

(** Adjacent spaces of a concatenation are those of its parts, or the
    pair at the seam. *)
Lemma single_spaces_app (x y : list N) :
  single_spaces (x ++ y)
  = single_spaces x && single_spaces y
    && negb ((List.last x 0 =? 32) && (hd 0 y =? 32)).
Proof.
  induction x as [|c x IH].
  - simpl. destruct (single_spaces y); reflexivity.
  - destruct x as [|d x].
    + simpl. destruct y as [|e y]; simpl.
      * now rewrite andb_false_r.
      * apply andb_comm.
    + change (single_spaces ((c :: d :: x) ++ y))
        with (negb ((c =? 32) && (d =? 32)) && single_spaces ((d :: x) ++ y)).
      rewrite IH.
      change (single_spaces (c :: d :: x))
        with (negb ((c =? 32) && (d =? 32)) && single_spaces (d :: x)).
      change (List.last (c :: d :: x) 0) with (List.last (d :: x) 0).
      now rewrite !andb_assoc.
Qed.

(** *** The cleaned sentence *)

Section PreprocessFacts.

Variable lower : list N -> list N.
Variable normalize : string -> list N -> list N.
Variable category : N -> string.

Abbreviation clean := (clean_sentence lower normalize category).
Abbreviation ascii_of := (unicode_to_ascii normalize category).

(** The two orders of the passes give the same sentence: in both, what
    decides is the replacement of the runs of characters that are not
    kept. *)
Lemma clean_sentence_refines (w : list N) :
  clean w = clean_sentence_spec lower normalize category w.
Proof.
  unfold clean_sentence, clean_sentence_spec, re_sub_runs. f_equal.
  rewrite (re_sub_runs_from_absorb not_kept 32 eq_refl is_quote_or_space
             quote_or_space_not_kept) by trivial.
  symmetry. apply collapse_spaces_id; [|discriminate].
  apply (re_sub_runs_from_single not_kept eq_refl).
Qed.

Lemma clean_sentence_chars (w : list N) (c : N) :
  In c (clean w) ->
  c = 32 \/ (is_kept c = true /\ In c (ascii_of (strip (lower w)))).
Proof.
  unfold clean_sentence, re_sub_runs. intros H. apply in_strip in H.
  apply (in_re_sub_runs_from not_kept 32) in H.
  destruct H as [H|[H Hk]]; [now left|].
  apply (in_re_sub_runs_from is_quote_or_space 32) in H.
  destruct H as [H|[H _]]; [now left|].
  apply in_re_sub_pad in H. destruct H as [H|H]; [now left|].
  right. split; [|exact H]. unfold not_kept in Hk.
  now apply negb_false_iff in Hk.
Qed.

Lemma clean_sentence_single_spaces (w : list N) :
  single_spaces (clean w) = true.
Proof.
  unfold clean_sentence, re_sub_runs. apply single_spaces_strip.
  apply (re_sub_runs_from_single not_kept eq_refl).
Qed.

End PreprocessFacts.

(** The example of the comment in the source, and the first sentence
    that the notebook prints. *)
Example clean_sentence_he_is_a_boy :
  clean_sentence ascii_lower ascii_normalize ascii_category
    (lit "he is a boy.")
  = lit "he is a boy .".
Proof. reflexivity. Qed.

Example preprocess_sentence_may_i_borrow :
  preprocess_sentence ascii_lower ascii_normalize ascii_category
    (lit "May I borrow this book?")
  = lit "<start> may i borrow this book ? <end>".
Proof. reflexivity. Qed.

(** The shape that the result is said to have: ['<start>'], then an
    interior made of lowercase letters, the listed punctuation and
    single spaces, then ['<end>']. *)
Definition tokens_around_single_spaced (r : list N) : Prop :=
  exists mid : list N,
    r = lit "<start>" ++ mid ++ lit "<end>"
    /\ Forall (fun c => is_lower_az c || is_punct c || (c =? 32) = true) mid
    /\ single_spaces mid = true.

(** C6, as stated, fails on a sentence without any letter or listed
    punctuation: for ["123"] the cleaned sentence is empty, the result is
    ['<start>  <end>'] and the two separating spaces are adjacent. *)
Lemma preprocess_sentence_digits_double_space :
  preprocess_sentence ascii_lower ascii_normalize ascii_category (lit "123")
  = lit "<start>  <end>"
  /\ ~ tokens_around_single_spaced
       (preprocess_sentence ascii_lower ascii_normalize ascii_category
          (lit "123")).
Proof.
  split; [reflexivity|].
  intros (mid & Hr & _ & Hs).
  change (preprocess_sentence ascii_lower ascii_normalize ascii_category
            (lit "123"))
    with (lit "<start>" ++ [32; 32] ++ lit "<end>") in Hr.
  apply app_inv_head in Hr. apply app_inv_tail in Hr. subst mid.
  discriminate Hs.
Qed.

(** The services of the Python runtime with the two facts of the
    Unicode character database on which the cleaning relies: what
    [str.lower] returns has nothing left to lowercase; and a capital
    [A-Z] in an NFD decomposition comes from a character that
    lowercasing changes (the capitals, with or without marks, the Kelvin
    and Angstrom signs). *)
Record Unicode : Type := {
  lower : list N -> list N;
  normalize : string -> list N -> list N;
  category : N -> string;
  lower_is_lowercase :
    forall s c, In c (lower s) -> lower [c] = [c];
  nfd_AZ_from_capital :
    forall s c, In c (normalize "NFD" s) -> is_upper_AZ c = true ->
                exists d, In d s /\ lower [d] <> [d]
}.

(** No capital [A-Z] is left after lowercasing and normalising. *)
Lemma unicode_to_ascii_no_AZ (u : Unicode) (w : list N) (c : N) :
  In c (unicode_to_ascii (normalize u) (category u) (strip (lower u w))) ->
  is_upper_AZ c = false.
Proof.
  unfold unicode_to_ascii. intros Hc. apply List.filter_In in Hc.
  destruct Hc as [Hc _]. destruct (is_upper_AZ c) eqn:Hup; [|reflexivity].
  destruct (nfd_AZ_from_capital u _ _ Hc Hup) as (d & Hd & Hchanged).
  apply in_strip in Hd. apply (lower_is_lowercase u) in Hd. congruence.
Qed.

(** C6, amended.  For every input [w], [preprocess_sentence] computes
    the same string as the passes listed by the specification; the
    result is ['<start> '], the cleaned sentence and [' <end>'], so it
    begins with ['<start>'] and ends with ['<end>']; the cleaned
    sentence contains only lowercase letters, the listed punctuation and
    spaces, never two adjacent ones; the whole result has no two adjacent
    spaces whenever the cleaned sentence is not empty, and is
    ['<start>  <end>'], with two adjacent spaces, when it is empty. *)
Theorem preprocess_sentence_shape (u : Unicode) (w : list N) :
  preprocess_sentence (lower u) (normalize u) (category u) w
  = preprocess_sentence_spec (lower u) (normalize u) (category u) w
  /\ lit "<start>"
     `prefix_of` preprocess_sentence (lower u) (normalize u) (category u) w
  /\ lit "<end>"
     `suffix_of` preprocess_sentence (lower u) (normalize u) (category u) w
  /\ Forall (fun c => is_lower_az c || is_punct c || (c =? 32) = true)
       (clean_sentence (lower u) (normalize u) (category u) w)
  /\ single_spaces (clean_sentence (lower u) (normalize u) (category u) w)
     = true
  /\ (clean_sentence (lower u) (normalize u) (category u) w <> [] ->
      single_spaces
        (preprocess_sentence (lower u) (normalize u) (category u) w) = true)
  /\ (clean_sentence (lower u) (normalize u) (category u) w = [] ->
      preprocess_sentence (lower u) (normalize u) (category u) w
      = lit "<start>  <end>").
Proof.
  set (mid := clean_sentence (lower u) (normalize u) (category u) w).
  assert (Hss : single_spaces mid = true)
    by apply clean_sentence_single_spaces.
  repeat split.
  - unfold preprocess_sentence, preprocess_sentence_spec.
    now rewrite clean_sentence_refines.
  - exists (32 :: mid ++ lit " <end>"). reflexivity.
  - exists (lit "<start> " ++ mid ++ [32]). unfold preprocess_sentence.
    fold mid. change (lit " <end>") with ([32] ++ lit "<end>").
    now rewrite <- !app_assoc.
  - apply List.Forall_forall. intros c Hc.
    apply clean_sentence_chars in Hc. destruct Hc as [->|[Hk Hin]];
      [reflexivity|].
    apply unicode_to_ascii_no_AZ in Hin.
    unfold is_kept in Hk. rewrite Hin, orb_false_r in Hk.
    now rewrite Hk.
  - exact Hss.
  - intros Hne. unfold preprocess_sentence. fold mid.
    rewrite !single_spaces_app, Hss.
    assert (Hhd : (hd 0 mid =? 32) = false)
      by (apply not_space_32; apply is_space_hd_strip).
    assert (Hlast : (List.last mid 0 =? 32) = false)
      by (apply not_space_32; apply is_space_last_strip).
    assert (Hhd' : hd 0 (mid ++ lit " <end>") = hd 0 mid)
      by (destruct mid; [congruence|reflexivity]).
    rewrite Hhd', Hhd, Hlast. reflexivity.
  - intros Hempty. unfold preprocess_sentence. fold mid.
    now rewrite Hempty.
Qed.

(** The services on ASCII text satisfy the facts. *)
Lemma ascii_lower_changes_AZ (c : N) :
  is_upper_AZ c = true -> ascii_lower [c] <> [c].
Proof.
  intros Hc. unfold ascii_lower. simpl. rewrite Hc. intros [= H]. lia.
Qed.

Lemma ascii_lower_is_lowercase (s : list N) (c : N) :
  In c (ascii_lower s) -> ascii_lower [c] = [c].
Proof.
  unfold ascii_lower. intros Hc. apply List.in_map_iff in Hc.
  destruct Hc as (d & <- & _). simpl.
  destruct (is_upper_AZ d) eqn:Hd; [|now rewrite Hd].
  assert (Hlow : is_upper_AZ (d + 32) = false)
    by (unfold is_upper_AZ in *; class_lia).
  now rewrite Hlow.
Qed.

Lemma ascii_nfd_AZ_from_capital (s : list N) (c : N) :
  In c (ascii_normalize "NFD" s) -> is_upper_AZ c = true ->
  exists d, In d s /\ ascii_lower [d] <> [d].
Proof.
  intros Hc Hup. exists c. split; [exact Hc|].
  now apply ascii_lower_changes_AZ.
Qed.

Definition ascii_unicode : Unicode :=
  {| lower := ascii_lower;
     normalize := ascii_normalize;
     category := ascii_category;
     lower_is_lowercase := ascii_lower_is_lowercase;
     nfd_AZ_from_capital := ascii_nfd_AZ_from_capital |}.

(** C6, amended, at the sentence ["He is a boy."] on ASCII text. *)
Lemma preprocess_sentence_shape_witness :
  preprocess_sentence ascii_lower ascii_normalize ascii_category
    (lit "He is a boy.")
  = preprocess_sentence_spec ascii_lower ascii_normalize ascii_category
      (lit "He is a boy.")
  /\ Forall (fun c => is_lower_az c || is_punct c || (c =? 32) = true)
       (clean_sentence ascii_lower ascii_normalize ascii_category
          (lit "He is a boy.")).
Proof.
  destruct (preprocess_sentence_shape ascii_unicode (lit "He is a boy."))
    as (Hspec & _ & _ & Hchars & _).
  split; [exact Hspec|exact Hchars].
Defined.

(** *** The words of a preprocessed sentence *)

Lemma split_space_not_nil (w : list N) : split_space w <> [].
Proof.
  destruct w as [|c w]; simpl; [discriminate|].
  destruct (c =? 32); [discriminate|].
  destruct (split_space w); discriminate.
Qed.

(** Splitting at a space splits both sides. *)
Lemma split_space_app (a b : list N) :
  split_space (a ++ 32 :: b) = split_space a ++ split_space b.
Proof.
  induction a as [|c a IH]; [reflexivity|]. simpl.
  destruct (c =? 32); [now rewrite IH|]. rewrite IH.
  pose proof (split_space_not_nil a) as Ha.
  destruct (split_space a) as [|x xs]; [congruence|reflexivity].
Qed.

Lemma split_space_no_space (w : list N) :
  Forall (fun x => ~ In 32 x) (split_space w).
Proof.
  induction w as [|c w IH]; simpl; [repeat constructor; auto|].
  destruct (c =? 32) eqn:Hc; [constructor; auto|].
  pose proof (split_space_not_nil w) as Hw.
  destruct (split_space w) as [|x xs]; [congruence|].
  inversion IH as [|? ? Hx Hxs]; subst. constructor; [|exact Hxs].
  intros [Heq|Hin]; [|now apply Hx].
  subst c. discriminate Hc.
Qed.

(** A word without a space is its own only word. *)
Lemma split_space_word (w : list N) : ~ In 32 w -> split_space w = [w].
Proof.
  induction w as [|c w IH]; intros Hw; [reflexivity|]. simpl.
  destruct (c =? 32) eqn:Hc.
  - apply N.eqb_eq in Hc. subst c. exfalso. apply Hw. now left.
  - rewrite IH; [reflexivity|]. intros Hin. apply Hw. now right.
Qed.

(** Text without leading, trailing or adjacent spaces has no empty
    word. *)
Lemma split_space_words_not_empty (w : list N) :
  single_spaces w = true ->
  (w <> [] -> (List.last w 0 =? 32) = false) ->
  Forall (fun x => x <> []) (tl (split_space w))
  /\ (w <> [] -> (hd 0 w =? 32) = false -> hd [] (split_space w) <> []).
Proof.
  induction w as [|c w IH]; intros Hs Hl; [split; [constructor|congruence]|].
  assert (Hs' : single_spaces w = true).
  { apply (single_spaces_app_r [c] w). exact Hs. }
  assert (Hl' : w <> [] -> (List.last w 0 =? 32) = false).
  { intros Hw. destruct w as [|d w]; [congruence|].
    apply Hl. discriminate. }
  destruct (IH Hs' Hl') as [IHt IHh]. simpl.
  destruct (c =? 32) eqn:Hc.
  - split; [|intros _ Hh; simpl in Hh; congruence].
    simpl. apply N.eqb_eq in Hc. subst c.
    destruct w as [|d w]; [specialize (Hl ltac:(discriminate));
                            simpl in Hl; discriminate|].
    assert (Hd : (d =? 32) = false).
    { simpl in Hs. apply andb_true_iff in Hs. destruct Hs as [Hs _].
      now apply negb_true_iff in Hs. }
    specialize (IHh ltac:(discriminate) Hd).
    pose proof (split_space_not_nil (d :: w)) as Hne.
    destruct (split_space (d :: w)) as [|x xs]; [congruence|].
    constructor; [exact IHh|exact IHt].
  - pose proof (split_space_not_nil w) as Hne.
    destruct (split_space w) as [|x xs]; [congruence|].
    simpl. split; [exact IHt|discriminate].
Qed.

(** X1.  The words of a preprocessed sentence, as [split(' ')] gives
    them, are ['<start>'], the words of the cleaned sentence and
    ['<end>'].  No word contains a space; when the cleaned sentence is not
    empty none of its words is empty, and when it is empty the words are
    ['<start>'], the empty word and ['<end>']. *)
Theorem preprocess_sentence_words
    (lower : list N -> list N) (normalize : string -> list N -> list N)
    (category : N -> string) (w : list N) :
  split_space (preprocess_sentence lower normalize category w)
  = [lit "<start>"]
    ++ split_space (clean_sentence lower normalize category w)
    ++ [lit "<end>"]
  /\ Forall (fun x => ~ In 32 x)
       (split_space (preprocess_sentence lower normalize category w))
  /\ (clean_sentence lower normalize category w <> [] ->
      Forall (fun x => x <> [])
        (split_space (preprocess_sentence lower normalize category w)))
  /\ (clean_sentence lower normalize category w = [] ->
      split_space (preprocess_sentence lower normalize category w)
      = [lit "<start>"; []; lit "<end>"]).
Proof.
  set (mid := clean_sentence lower normalize category w).
  assert (Hwords :
    split_space (preprocess_sentence lower normalize category w)
    = [lit "<start>"] ++ split_space mid ++ [lit "<end>"]).
  { unfold preprocess_sentence. fold mid.
    change (lit "<start> " ++ mid ++ lit " <end>")
      with (lit "<start>" ++ 32 :: (mid ++ 32 :: lit "<end>")).
    now rewrite !split_space_app. }
  split; [exact Hwords|]. split; [apply split_space_no_space|]. split.
  - intros Hne. rewrite Hwords.
    pose proof (clean_sentence_single_spaces lower normalize category w)
      as Hs. fold mid in Hs.
    assert (Hhd : (hd 0 mid =? 32) = false)
      by (apply not_space_32; apply is_space_hd_strip).
    assert (Hlast : (List.last mid 0 =? 32) = false)
      by (apply not_space_32; apply is_space_last_strip).
    destruct (split_space_words_not_empty mid Hs (fun _ => Hlast))
      as [Ht Hh].
    specialize (Hh Hne Hhd).
    pose proof (split_space_not_nil mid) as Hnil.
    destruct (split_space mid) as [|x xs]; [congruence|].
    simpl in Ht, Hh.
    apply List.Forall_app. split; [repeat constructor; discriminate|].
    apply List.Forall_app. split; [now constructor|].
    repeat constructor. discriminate.
  - intros Hempty. rewrite Hwords, Hempty. reflexivity.
Qed.

(** *** Punctuation marks are words of their own *)

Definition next_is_space_or_end (w : list N) : bool :=
  match w with
  | [] => true
  | d :: _ => d =? 32
  end.

(** Every punctuation mark stands between spaces or the ends of the
    text; [prev] says that the text starts after a space or at the
    start. *)
Fixpoint isolated_from (prev : bool) (w : list N) : bool :=
  match w with
  | [] => true
  | c :: w' =>
      if is_punct c
      then prev && next_is_space_or_end w' && isolated_from false w'
      else isolated_from (c =? 32) w'
  end.

Lemma isolated_from_cons (b : bool) (c : N) (w : list N) :
  isolated_from b (c :: w)
  = if is_punct c
    then b && next_is_space_or_end w && isolated_from false w
    else isolated_from (c =? 32) w.
Proof. reflexivity. Qed.

Lemma isolated_from_weaken (b : bool) (w : list N) :
  isolated_from b w = true -> isolated_from true w = true.
Proof.
  destruct w as [|c w]; [trivial|]. simpl.
  destruct (is_punct c); [|trivial].
  intros H. apply andb_true_iff in H. destruct H as [H1 H2].
  apply andb_true_iff in H1. destruct H1 as [_ H1].
  now rewrite H1, H2.
Qed.

Lemma isolated_re_sub_pad (b : bool) (w : list N) :
  isolated_from b (re_sub_pad is_punct w) = true.
Proof.
  revert b. induction w as [|c w IH]; intros b; [reflexivity|].
  unfold re_sub_pad in *. cbn [flat_map].
  destruct (is_punct c) eqn:Hc.
  - cbn [app isolated_from]. change (is_punct 32) with false.
    cbn [isolated_from]. rewrite Hc. change (32 =? 32) with true.
    cbn [next_is_space_or_end andb]. change (32 =? 32) with true.
    cbn [andb]. change (is_punct 32) with false. cbv iota.
    change (32 =? 32) with true. apply IH.
  - cbn [app isolated_from]. rewrite Hc. apply IH.
Qed.

Section RunsIsolated.

Variable cls : N -> bool.
Hypothesis cls_space : cls 32 = true.
Hypothesis cls_not_punct : forall c, cls c = true -> is_punct c = false.

(** Replacing the runs of a class that contains the space and no
    punctuation mark keeps the punctuation marks isolated. *)
Lemma isolated_re_sub_runs_from (w : list N) :
  (forall b, isolated_from b w = true ->
             isolated_from b (re_sub_runs_from cls [32] false w) = true)
  /\ (forall b, isolated_from b w = true ->
                isolated_from true (re_sub_runs_from cls [32] true w) = true).
Proof.
  induction w as [|c w [IH1 IH2]]; [split; intros b _; reflexivity|].
  assert (Hnext : next_is_space_or_end w = true ->
                  next_is_space_or_end (re_sub_runs_from cls [32] false w)
                  = true).
  { destruct w as [|d w]; [trivial|]. simpl. intros Hd.
    apply N.eqb_eq in Hd. subst d. now rewrite cls_space. }
  split; intros b H; simpl in H; simpl.
  - destruct (cls c) eqn:Hc.
    + rewrite (cls_not_punct c Hc) in H. cbn [app isolated_from].
      change (is_punct 32) with false. cbv iota.
      change (32 =? 32) with true. now apply (IH2 (c =? 32)).
    + cbn [isolated_from]. destruct (is_punct c).
      * apply andb_true_iff in H. destruct H as [H Hw].
        apply andb_true_iff in H. destruct H as [Hb Hn].
        now rewrite Hb, (Hnext Hn), (IH1 false Hw).
      * assert (Hne : (c =? 32) = false).
        { apply N.eqb_neq. intros ->. congruence. }
        rewrite Hne in *. now apply IH1.
  - destruct (cls c) eqn:Hc.
    + rewrite (cls_not_punct c Hc) in H. cbn [app].
      now apply (IH2 (c =? 32)).
    + cbn [isolated_from]. destruct (is_punct c).
      * apply andb_true_iff in H. destruct H as [H Hw].
        apply andb_true_iff in H. destruct H as [Hb Hn].
        now rewrite (Hnext Hn), (IH1 false Hw).
      * assert (Hne : (c =? 32) = false).
        { apply N.eqb_neq. intros ->. congruence. }
        rewrite Hne in *. now apply IH1.
Qed.

End RunsIsolated.

Lemma is_space_not_punct (c : N) : is_space c = true -> is_punct c = false.
Proof. unfold is_space, is_punct. intros H. class_lia. Qed.

Lemma isolated_lstrip (b : bool) (w : list N) :
  isolated_from b w = true -> isolated_from true (lstrip w) = true.
Proof.
  revert b. induction w as [|c w IH]; intros b H; [reflexivity|].
  cbn [lstrip]. destruct (is_space c) eqn:Hc.
  - simpl in H. rewrite (is_space_not_punct c Hc) in H. now apply (IH _ H).
  - now apply (isolated_from_weaken b).
Qed.

Lemma isolated_rstrip (b : bool) (w : list N) :
  isolated_from b w = true -> isolated_from b (rstrip w) = true.
Proof.
  revert b. induction w as [|c w IH]; intros b H; [reflexivity|].
  assert (Hnext : next_is_space_or_end w = true ->
                  next_is_space_or_end (rstrip w) = true).
  { destruct (rstrip_prefix w) as [s Hs].
    destruct (rstrip w) as [|d r]; [trivial|].
    rewrite Hs. trivial. }
  simpl in H. cbn [rstrip].
  destruct (is_punct c) eqn:Hp.
  - apply andb_true_iff in H. destruct H as [H Hw].
    apply andb_true_iff in H. destruct H as [Hb Hn].
    specialize (IH false Hw). specialize (Hnext Hn).
    destruct (rstrip w) as [|d r] eqn:Hr.
    + destruct (is_space c); [reflexivity|].
      simpl. now rewrite Hp, Hb.
    + rewrite isolated_from_cons. now rewrite Hp, Hb, Hnext, IH.
  - specialize (IH (c =? 32) H).
    destruct (rstrip w) as [|d r] eqn:Hr.
    + destruct (is_space c); [reflexivity|]. simpl. now rewrite Hp.
    + rewrite isolated_from_cons. now rewrite Hp.
Qed.

(** The words of a text with isolated punctuation marks. *)
Definition word_shape (x : list N) : Prop :=
  (exists c, x = [c] /\ is_punct c = true)
  \/ Forall (fun c => is_punct c = false) x.

Lemma isolated_words (w : list N) (b : bool) :
  isolated_from b w = true ->
  Forall word_shape (tl (split_space w))
  /\ Forall (fun c => is_punct c = false \/ (b = true /\ length (hd [] (split_space w)) = 1%nat))
       (hd [] (split_space w)).
Proof.
  revert b. induction w as [|c w IH]; intros b H.
  - simpl. split; constructor.
  - simpl in H. simpl.
    pose proof (split_space_not_nil w) as Hne.
    destruct (is_punct c) eqn:Hp.
    + apply andb_true_iff in H. destruct H as [H Hw].
      apply andb_true_iff in H. destruct H as [Hb Hn].
      assert (Hc : (c =? 32) = false).
      { apply N.eqb_neq. intros ->. discriminate Hp. }
      rewrite Hc. destruct (IH false Hw) as [IHt IHh].
      assert (Hhd : hd [] (split_space w) = []).
      { destruct w as [|d w]; [reflexivity|]. simpl in Hn.
        simpl. now rewrite Hn. }
      destruct (split_space w) as [|x xs]; [congruence|].
      simpl in *. subst x. split; [exact IHt|].
      constructor; [|constructor]. right. now split.
    + destruct (c =? 32) eqn:Hc.
      * destruct (IH true H) as [IHt IHh]. split; [|constructor].
        simpl. destruct (split_space w) as [|x xs]; [congruence|].
        simpl in *. constructor; [|exact IHt].
        destruct x as [|d [|d' x]].
        -- right. constructor.
        -- inversion IHh as [|? ? [Hd|[_ _]] _]; subst.
           ++ right. now constructor.
           ++ destruct (is_punct d) eqn:Hd; [left; now exists d|].
              right. now constructor.
        -- right. eapply List.Forall_impl; [|exact IHh].
           intros e [He|[_ Hl]]; [exact He|discriminate Hl].
      * destruct (IH false H) as [IHt IHh].
        destruct (split_space w) as [|x xs]; [congruence|].
        simpl in *. split; [exact IHt|].
        constructor; [now left|].
        eapply List.Forall_impl; [|exact IHh].
        intros e [He|[Hf _]]; [now left|discriminate Hf].
Qed.

(** X17.  In the cleaned sentence every punctuation mark [? . ! , ¿]
    is a word of its own: each word that [split(' ')] gives is one
    punctuation mark or contains none. *)
Theorem clean_sentence_punctuation_words
    (lower : list N -> list N) (normalize : string -> list N -> list N)
    (category : N -> string) (w : list N) :
  Forall word_shape
    (split_space (clean_sentence lower normalize category w)).
Proof.
  assert (Hiso : isolated_from true
                   (clean_sentence lower normalize category w) = true).
  { unfold clean_sentence, strip, re_sub_runs.
    apply isolated_rstrip. apply (isolated_lstrip true).
    apply (isolated_re_sub_runs_from not_kept eq_refl).
    { intros c Hc. unfold not_kept, is_kept in Hc.
      apply negb_true_iff in Hc. apply orb_false_iff in Hc. tauto. }
    apply (isolated_re_sub_runs_from is_quote_or_space eq_refl).
    { intros c Hc. unfold is_quote_or_space, is_punct in *. class_lia. }
    apply isolated_re_sub_pad. }
  destruct (isolated_words _ _ Hiso) as [Ht Hh].
  pose proof (split_space_not_nil
                (clean_sentence lower normalize category w)) as Hne.
  destruct (split_space (clean_sentence lower normalize category w))
    as [|x xs]; [congruence|].
  simpl in *. constructor; [|exact Ht].
  destruct x as [|d [|d' x]].
  - right. constructor.
  - inversion Hh as [|? ? [Hd|[_ _]] _]; subst.
    + right. now constructor.
    + destruct (is_punct d) eqn:Hd; [left; now exists d|].
      right. now constructor.
  - right. eapply List.Forall_impl; [|exact Hh].
    intros e [He|[_ Hl]]; [exact He|discriminate Hl].
Qed.

End Text.

(** ** Tensors: nested lists of reals and the framework operations used *)

Module Tensor.

Local Open Scope R_scope.

(** [tf.reduce_sum] of a vector. *)
Definition Rsum (l : list R) : R := fold_right Rplus 0 l.

(** An elementwise operation with broadcasting: an axis of size one is
    stretched to the size of the other operand; otherwise the axes are
    paired (the framework rejects sizes that differ and are not one). *)
Definition broadcast {A B C : Type} (f : A -> B -> C)
    (xs : list A) (ys : list B) : list C :=
  match xs, ys with
  | [x], _ => List.map (f x) ys
  | _, [y] => List.map (fun x => f x y) xs
  | _, _ => zip_with f xs ys
  end.

(** [a + b] and [a * b] on tensors of rank three. *)
Definition add3 : list (list (list R)) -> list (list (list R))
    -> list (list (list R)) :=
  broadcast (broadcast (broadcast Rplus)).
Definition mul3 : list (list (list R)) -> list (list (list R))
    -> list (list (list R)) :=
  broadcast (broadcast (broadcast Rmult)).

(** [tf.nn.tanh] *)
Definition tanh3 (x : list (list (list R))) : list (list (list R)) :=
  List.map (List.map (List.map tanh)) x.

(** [tf.expand_dims(x, 1)]: every entry along the first axis becomes a
    list of one entry. *)
Definition expand_dims_1 {A : Type} (x : list A) : list (list A) :=
  List.map (fun row => [row]) x.

(** The sum of column [k] of a matrix given by its rows. *)
Definition col_sum (m : list (list R)) (k : nat) : R :=
  Rsum (List.map (fun row => nth k row 0) m).

(** [tf.nn.softmax(x, axis=1)] on a tensor of rank three: in every batch
    element, every column is normalised over the time axis. *)
Definition softmax_axis1 (x : list (list (list R)))
  : list (list (list R)) :=
  List.map (fun m =>
    let e := List.map (List.map exp) m in
    List.map (fun row => imap (fun k a => a / col_sum e k) row) e) x.

(** [tf.reduce_sum(x, axis=1)] on a tensor of rank three whose last axis
    has the static size [width] (a list of rows does not record its
    width when it is empty). *)
Definition reduce_sum_axis1 (width : nat) (x : list (list (list R)))
  : list (list R) :=
  List.map (fun m => List.map (col_sum m) (seq 0 width)) x.

(** Shapes. *)
Definition shape2 {A : Type} (x : list (list A)) (d0 d1 : nat) : Prop :=
  length x = d0 /\ Forall (fun row => length row = d1) x.
Definition shape3 {A : Type} (x : list (list (list A))) (d0 d1 d2 : nat)
  : Prop :=
  length x = d0 /\ Forall (fun m => shape2 m d1 d2) x.

(** A trainable layer acting on the last axis, with [n] output units:
    [tf.keras.layers.Dense(n)] once its weights exist. *)
Record Layer (n : nat) : Type := {
  apply :> list R -> list R;
  apply_units : forall x, length (apply x) = n
}.
Arguments apply {n} _ _.
Arguments apply_units {n} _ _.

(** A layer applied to tensors of rank two and three. *)
Definition on_rank2 {n : nat} (l : Layer n) (x : list (list R))
  : list (list R) := List.map l x.
Definition on_rank3 {n : nat} (l : Layer n) (x : list (list (list R)))
  : list (list (list R)) := List.map (List.map l) x.

(** The dense layer with a given kernel (one row per input feature) and
    bias: [output = dot(input, kernel) + bias]. *)
Definition dense_apply (kernel : list (list R)) (bias : list R)
    (x : list R) : list R :=
  imap (fun j b => Rsum (zip_with (fun xi row => xi * nth j row 0) x kernel) + b)
    bias.

Lemma dense_apply_units (kernel : list (list R)) (bias : list R)
    (x : list R) :
  length (dense_apply kernel bias x) = length bias.
Proof. unfold dense_apply. apply length_imap. Qed.

Definition Dense (kernel : list (list R)) (bias : list R)
  : Layer (length bias) :=
  {| apply := dense_apply kernel bias;
     apply_units := dense_apply_units kernel bias |}.

(** *** Facts about the tensor operations *)

Lemma broadcast_same_length {A B C : Type} (f : A -> B -> C)
    (xs : list A) (ys : list B) :
  length xs = length ys -> broadcast f xs ys = zip_with f xs ys.
Proof.
  destruct xs as [|x [|x' xs]], ys as [|y [|y' ys]];
    simpl; intros H; try discriminate; reflexivity.
Qed.

Lemma broadcast_one_l {A B C : Type} (f : A -> B -> C) (x : A)
    (ys : list B) :
  broadcast f [x] ys = List.map (f x) ys.
Proof. reflexivity. Qed.

Lemma zip_with_map_l {A A' B C : Type} (f : A' -> B -> C) (g : A -> A')
    (xs : list A) (ys : list B) :
  zip_with f (List.map g xs) ys = zip_with (fun x y => f (g x) y) xs ys.
Proof.
  revert ys. induction xs as [|x xs IH]; intros [|y ys]; simpl;
    try reflexivity. now rewrite IH.
Qed.

Lemma zip_with_map_r {A B B' C : Type} (f : A -> B' -> C) (g : B -> B')
    (xs : list A) (ys : list B) :
  zip_with f xs (List.map g ys) = zip_with (fun x y => f x (g y)) xs ys.
Proof.
  revert ys. induction xs as [|x xs IH]; intros [|y ys]; simpl;
    try reflexivity. now rewrite IH.
Qed.

Lemma map_zip_with {A B C D : Type} (g : C -> D) (f : A -> B -> C)
    (xs : list A) (ys : list B) :
  List.map g (zip_with f xs ys) = zip_with (fun x y => g (f x y)) xs ys.
Proof.
  revert ys. induction xs as [|x xs IH]; intros [|y ys]; simpl;
    try reflexivity. now rewrite IH.
Qed.

(** Two pairings agree when their functions agree on the paired
    elements. *)
Lemma zip_with_ext_in {A B C : Type} (f g : A -> B -> C)
    (xs : list A) (ys : list B) :
  (forall x y, In x xs -> In y ys -> f x y = g x y) ->
  zip_with f xs ys = zip_with g xs ys.
Proof.
  revert ys. induction xs as [|x xs IH]; intros [|y ys] H; simpl;
    try reflexivity.
  f_equal; [apply H; now left|]. apply IH. intros x' y' Hx Hy.
  apply H; now right.
Qed.

Lemma singleton_hd (row : list R) : length row = 1%nat -> row = [hd 0 row].
Proof. destruct row as [|a [|b r]]; simpl; intros H; try discriminate; reflexivity. Qed.

Lemma col_sum_nil (k : nat) : col_sum [] k = 0.
Proof. reflexivity. Qed.

Lemma col_sum_cons (r : list R) (m : list (list R)) (k : nat) :
  col_sum (r :: m) k = nth k r 0 + col_sum m k.
Proof. reflexivity. Qed.

(** A vector is the list of its entries. *)
Lemma map_nth_seq (r : list R) (f : nat -> R) :
  List.map (fun k => nth k r 0 + f k) (seq 0 (length r))
  = zip_with Rplus r (List.map f (seq 0 (length r))).
Proof.
  revert f. induction r as [|a r IH]; intros f; [reflexivity|].
  simpl. f_equal. rewrite <- !seq_shift, !List.map_map. apply IH.
Qed.

Lemma map_const_seq (n : nat) : List.map (fun _ => 0) (seq 0 n) = repeat 0 n.
Proof.
  generalize 0%nat. induction n as [|n IH]; intros s; simpl; [reflexivity|].
  now rewrite IH.
Qed.

Lemma Rsum_map_div (l : list R) (s : R) :
  Rsum (List.map (fun x => x / s) l) = Rsum l / s.
Proof.
  induction l as [|a l IH]; simpl; [unfold Rdiv; ring|].
  rewrite IH. unfold Rdiv. ring.
Qed.

Lemma Rsum_exp_pos (l : list R) : l <> [] -> 0 < Rsum (List.map exp l).
Proof.
  intros Hne. destruct l as [|a l]; [congruence|]. clear Hne.
  revert a. induction l as [|b l IH]; intros a; simpl.
  - pose proof (exp_pos a). lra.
  - pose proof (exp_pos a). specialize (IH b). simpl in IH. lra.
Qed.

End Tensor.

(** ** Bahdanau attention *)

Module Attention.

Import Tensor.
Local Open Scope R_scope.

(** [BahdanauAttention(units)]: two dense layers with [units] outputs and
    one with a single output. *)
Record BahdanauAttention (units : nat) : Type := {
  W1 : Layer units;
  W2 : Layer units;
  V : Layer 1
}.
Arguments W1 {units} _.
Arguments W2 {units} _.
Arguments V {units} _.

(** [BahdanauAttention.call]; [hidden] is the static size of the last
    axis of [values]. *)
Definition call {units : nat} (self : BahdanauAttention units)
    (hidden : nat) (query : list (list R)) (values : list (list (list R)))
  : list (list R) * list (list (list R)) :=
  let query_with_time_axis := expand_dims_1 query in
  let score :=
    on_rank3 (V self)
      (tanh3 (add3 (on_rank3 (W1 self) query_with_time_axis)
                   (on_rank3 (W2 self) values))) in
  let attention_weights := softmax_axis1 score in
  let context_vector := mul3 attention_weights values in
  let context_vector := reduce_sum_axis1 hidden context_vector in
  (context_vector, attention_weights).

(** The formula of the paper for one batch element: a score for every
    encoder position, a softmax over the positions, the weighted sum of
    the encoder outputs. *)
Section Textbook.

Context {units : nat} (self : BahdanauAttention units).

Definition score_of (q v : list R) : R :=
  hd 0 (V self (List.map tanh (zip_with Rplus (W1 self q) (W2 self v)))).

Definition softmax (e : list R) : list R :=
  List.map (fun x => exp x / Rsum (List.map exp e)) e.

Definition weights_of (q : list R) (vs : list (list R)) : list R :=
  softmax (List.map (score_of q) vs).

Definition weighted_sum (hidden : nat) (a : list R) (vs : list (list R))
  : list R :=
  fold_right (fun '(at_, v) acc => zip_with Rplus (List.map (Rmult at_) v) acc)
    (repeat 0 hidden) (combine a vs).

Definition context_of (hidden : nat) (q : list R) (vs : list (list R))
  : list R :=
  weighted_sum hidden (weights_of q vs) vs.

End Textbook.

(** *** The softmax is a probability distribution *)

Lemma softmax_length (e : list R) : length (softmax e) = length e.
Proof. unfold softmax. apply List.length_map. Qed.

Lemma softmax_positive (e : list R) : Forall (fun a => 0 < a) (softmax e).
Proof.
  unfold softmax. apply List.Forall_forall. intros a Ha.
  apply List.in_map_iff in Ha. destruct Ha as (x & <- & Hx).
  apply Rdiv_lt_0_compat; [apply exp_pos|].
  apply Rsum_exp_pos. intros ->. exact Hx.
Qed.

Lemma softmax_sums_to_one (e : list R) : e <> [] -> Rsum (softmax e) = 1.
Proof.
  intros Hne. unfold softmax.
  rewrite <- (List.map_map exp (fun y => y / Rsum (List.map exp e))).
  rewrite Rsum_map_div. field.
  apply Rgt_not_eq. now apply Rsum_exp_pos.
Qed.

(** *** [call], one batch element at a time *)

Section CallFacts.

Context {units : nat} (self : BahdanauAttention units).

(** The scores of one batch element. *)
Lemma score_rows (query : list (list R)) (values : list (list (list R))) :
  length query = length values ->
  on_rank3 (V self)
    (tanh3 (add3 (on_rank3 (W1 self) (expand_dims_1 query))
                 (on_rank3 (W2 self) values)))
  = zip_with (fun q vs => List.map (fun v => [score_of self q v]) vs)
      query values.
Proof.
  intros Hlen. unfold on_rank3, tanh3, add3, expand_dims_1.
  rewrite broadcast_same_length by (now rewrite !List.length_map).
  rewrite !List.map_map, zip_with_map_l, zip_with_map_r, !map_zip_with.
  apply zip_with_ext_in. intros q vs _ _. simpl.
  rewrite !List.map_map. apply List.map_ext. intros v.
  rewrite broadcast_same_length by (now rewrite !apply_units).
  unfold score_of. apply singleton_hd, apply_units.
Qed.

(** The softmax over the time axis of a column of scores. *)
Lemma softmax_axis1_column (e : list R) :
  List.map (fun row => imap (fun k a => a / col_sum
              (List.map (List.map exp) (List.map (fun x => [x]) e)) k) row)
    (List.map (List.map exp) (List.map (fun x => [x]) e))
  = List.map (fun a => [a]) (softmax e).
Proof.
  unfold softmax. rewrite !List.map_map. apply List.map_ext. intros x.
  simpl. unfold col_sum. now rewrite !List.map_map.
Qed.

Lemma call_weights (hidden : nat) (query : list (list R))
    (values : list (list (list R))) :
  length query = length values ->
  snd (call self hidden query values)
  = zip_with (fun q vs => List.map (fun a => [a]) (weights_of self q vs))
      query values.
Proof.
  intros Hlen. unfold call. simpl snd. rewrite score_rows by exact Hlen.
  unfold softmax_axis1. rewrite map_zip_with.
  apply zip_with_ext_in. intros q vs _ _.
  rewrite <- (List.map_map (score_of self q) (fun x => [x])).
  apply softmax_axis1_column.
Qed.

(** The sum over the time axis of the weighted encoder outputs. *)
Lemma reduce_weighted (hidden : nat) (a : list R) (vs : list (list R)) :
  Forall (fun v => length v = hidden) vs ->
  List.map (col_sum (zip_with (fun x v => List.map (Rmult x) v) a vs))
    (seq 0 hidden)
  = weighted_sum hidden a vs.
Proof.
  intros Hvs. revert a. induction Hvs as [|v vs Hv Hvs IH]; intros a.
  - destruct a; simpl; apply map_const_seq.
  - destruct a as [|x a]; [apply map_const_seq|].
    change (weighted_sum hidden (x :: a) (v :: vs))
      with (zip_with Rplus (List.map (Rmult x) v) (weighted_sum hidden a vs)).
    rewrite <- IH.
    assert (Hl : length (List.map (Rmult x) v) = hidden)
      by (now rewrite List.length_map).
    rewrite <- Hl. rewrite <- map_nth_seq. reflexivity.
Qed.

Lemma call_context (hidden : nat) (query : list (list R))
    (values : list (list (list R))) :
  length query = length values ->
  Forall (Forall (fun v => length v = hidden)) values ->
  fst (call self hidden query values)
  = zip_with (context_of self hidden) query values.
Proof.
  intros Hlen Hsh.
  pose proof (call_weights hidden query values Hlen) as Hw.
  unfold call in *. simpl fst. simpl snd in Hw. rewrite Hw. clear Hw.
  unfold reduce_sum_axis1, mul3.
  rewrite broadcast_same_length
    by (rewrite length_zip_with; lia).
  rewrite map_zip_with.
  revert values Hlen Hsh. induction query as [|q query IH];
    intros [|vs values] Hlen Hsh; try discriminate; [reflexivity|].
  simpl. inversion Hsh as [|? ? Hvs Hrest]; subst. f_equal.
  - rewrite broadcast_same_length
      by (rewrite List.length_map; unfold weights_of;
          now rewrite softmax_length, List.length_map).
    rewrite zip_with_map_l. simpl. unfold context_of.
    now apply reduce_weighted.
  - apply IH; [now injection Hlen|exact Hrest].
Qed.

End CallFacts.

Lemma Forall_zip_with_in {A B C : Type} (P : C -> Prop) (f : A -> B -> C)
    (xs : list A) (ys : list B) :
  (forall x y, In x xs -> In y ys -> P (f x y)) ->
  Forall P (zip_with f xs ys).
Proof.
  revert ys. induction xs as [|x xs IH]; intros [|y ys] H; simpl;
    try constructor.
  - apply H; now left.
  - apply IH. intros x' y' Hx Hy. apply H; now right.
Qed.

Lemma weighted_sum_length (hidden : nat) (a : list R)
    (vs : list (list R)) :
  Forall (fun v => length v = hidden) vs ->
  length (weighted_sum hidden a vs) = hidden.
Proof.
  intros Hvs. revert a. induction Hvs as [|v vs Hv Hvs IH]; intros a.
  - destruct a; simpl; apply repeat_length.
  - destruct a as [|x a]; [apply repeat_length|].
    change (weighted_sum hidden (x :: a) (v :: vs))
      with (zip_with Rplus (List.map (Rmult x) v) (weighted_sum hidden a vs)).
    rewrite length_zip_with, List.length_map, IH. lia.
Qed.

(** Two small layers: the identity on two features, and the sum of
    two features. *)
Definition identity2 : Layer 2 := Dense [[1; 0]; [0; 1]] [0; 0].
Definition sum2 : Layer 1 := Dense [[1]; [1]] [0].
Definition attention0 : BahdanauAttention 2 :=
  {| W1 := identity2; W2 := identity2; V := sum2 |}.
Definition query0 : list (list R) := [[1; 2]].
Definition values0 : list (list (list R)) := [[[1; 0]; [0; 1]; [1; 1]]].

(** C1.  For a query of shape [(batch_size, hidden)] and values of shape
    [(batch_size, max_len, hidden)], [BahdanauAttention.call] returns, for
    every batch element, the weights [softmax_t V(tanh(W1 q + W2 v_t))]
    (as a column, shape [(batch_size, max_len, 1)]) and the context
    vector [sum_t weight_t * v_t] (shape [(batch_size, hidden)]). *)
Theorem call_is_textbook_attention {units : nat}
    (self : BahdanauAttention units) (batch_size max_len hidden : nat)
    (query : list (list R)) (values : list (list (list R))) :
  shape2 query batch_size hidden ->
  shape3 values batch_size max_len hidden ->
  call self hidden query values
  = (zip_with (context_of self hidden) query values,
     zip_with (fun q vs => List.map (fun a => [a]) (weights_of self q vs))
       query values)
  /\ shape2 (fst (call self hidden query values)) batch_size hidden
  /\ shape3 (snd (call self hidden query values)) batch_size max_len 1.
Proof.
  intros [Hq _] [Hv Hsh].
  assert (Hlen : length query = length values) by congruence.
  assert (Hrows : Forall (Forall (fun v => length v = hidden)) values).
  { eapply List.Forall_impl; [|exact Hsh]. intros m [_ Hm]. exact Hm. }
  pose proof (call_context self hidden query values Hlen Hrows) as Hc.
  pose proof (call_weights self hidden query values Hlen) as Hw.
  split; [|split].
  - rewrite (surjective_pairing (call self hidden query values)).
    now rewrite Hc, Hw.
  - rewrite Hc. split; [rewrite length_zip_with; lia|].
    apply Forall_zip_with_in. intros q vs _ Hvs. unfold context_of.
    apply weighted_sum_length.
    rewrite List.Forall_forall in Hrows. now apply Hrows.
  - rewrite Hw. split; [rewrite length_zip_with; lia|].
    apply Forall_zip_with_in. intros q vs _ Hvs. split.
    + unfold weights_of. rewrite List.length_map, softmax_length,
        List.length_map.
      rewrite List.Forall_forall in Hsh. now destruct (Hsh vs Hvs).
    + apply List.Forall_forall. intros row Hrow.
      apply List.in_map_iff in Hrow. now destruct Hrow as (a & <- & _).
Qed.

(** C1 at one query against three encoder positions. *)
Lemma call_is_textbook_attention_witness :
  call attention0 2 query0 values0
  = (zip_with (context_of attention0 2) query0 values0,
     zip_with (fun q vs => List.map (fun a => [a]) (weights_of attention0 q vs))
       query0 values0).
Proof.
  apply (call_is_textbook_attention attention0 1 3 2 query0 values0).
  - split; [reflexivity|repeat constructor].
  - split; [reflexivity|repeat constructor].
Defined.

(** C8, as stated, fails without encoder positions: for values of
    shape [(1, 0, 2)] the weights of the batch element are an empty
    column, whose sum is zero and not one. *)
Lemma attention_weights_no_position :
  shape2 query0 1 2
  /\ shape3 ([[]] : list (list (list R))) 1 0 2
  /\ snd (call attention0 2 query0 [[]]) = [[]]
  /\ ~ Forall (fun m => col_sum m 0 = 1)
         (snd (call attention0 2 query0 [[]])).
Proof.
  assert (Hw : snd (call attention0 2 query0 [[]]) = [[]]) by reflexivity.
  repeat split; try (repeat constructor); try exact Hw.
  rewrite Hw. intros H. inversion H as [|? ? Hsum _]; subst.
  unfold col_sum in Hsum. simpl in Hsum. lra.
Qed.

(** C8, amended.  With at least one encoder position, the attention
    weights returned by [call] have shape [(batch_size, max_len, 1)],
    every weight is strictly positive and, in every batch element, the
    weights of the [max_len] positions sum to one. *)
Theorem attention_weights_distribution {units : nat}
    (self : BahdanauAttention units) (batch_size max_len hidden : nat)
    (query : list (list R)) (values : list (list (list R))) :
  shape2 query batch_size hidden ->
  shape3 values batch_size max_len hidden ->
  (0 < max_len)%nat ->
  shape3 (snd (call self hidden query values)) batch_size max_len 1
  /\ Forall (fun m =>
               Forall (Forall (fun a => 0 < a)) m /\ col_sum m 0 = 1)
       (snd (call self hidden query values)).
Proof.
  intros [Hq _] [Hv Hsh] Hpos.
  rewrite call_weights by congruence. split.
  - split; [rewrite length_zip_with; lia|].
    apply Forall_zip_with_in. intros q vs _ Hvs. split.
    + unfold weights_of. rewrite List.length_map, softmax_length,
        List.length_map.
      rewrite List.Forall_forall in Hsh. now destruct (Hsh vs Hvs).
    + apply List.Forall_forall. intros row Hrow.
      apply List.in_map_iff in Hrow. now destruct Hrow as (a & <- & _).
  - apply Forall_zip_with_in. intros q vs _ Hvs.
    rewrite List.Forall_forall in Hsh. destruct (Hsh vs Hvs) as [Hlen _].
    unfold weights_of. split.
    + apply List.Forall_forall. intros row Hrow.
      apply List.in_map_iff in Hrow. destruct Hrow as (a & <- & Ha).
      constructor; [|constructor].
      pose proof (softmax_positive (List.map (score_of self q) vs)) as Hp.
      rewrite List.Forall_forall in Hp. now apply Hp.
    + unfold col_sum. rewrite List.map_map. simpl.
      rewrite List.map_id. apply softmax_sums_to_one.
      destruct vs; [simpl in Hlen; lia|discriminate].
Qed.

(** C8, amended, at one query against three encoder positions. *)
Lemma attention_weights_distribution_witness :
  shape3 (snd (call attention0 2 query0 values0)) 1 3 1
  /\ Forall (fun m =>
               Forall (Forall (fun a => 0 < a)) m /\ col_sum m 0 = 1)
       (snd (call attention0 2 query0 values0)).
Proof.
  apply (attention_weights_distribution attention0 1 3 2 query0 values0).
  - split; [reflexivity|repeat constructor].
  - split; [reflexivity|repeat constructor].
  - lia.
Defined.

(** *** The context vector is a weighted average *)

Lemma nth_zip_with_Rplus (k : nat) (l1 l2 : list R) :
  (k < length l1)%nat -> (k < length l2)%nat ->
  nth k (zip_with Rplus l1 l2) 0 = nth k l1 0 + nth k l2 0.
Proof.
  revert l1 l2. induction k as [|k IH]; intros [|a l1] [|b l2] H1 H2;
    simpl in *; try lia; [reflexivity|]. apply IH; lia.
Qed.

Lemma nth_map_Rmult (k : nat) (x : R) (v : list R) :
  nth k (List.map (Rmult x) v) 0 = x * nth k v 0.
Proof.
  revert v. induction k as [|k IH]; intros [|a v]; simpl;
    try ring; try reflexivity. apply IH.
Qed.

(** A coordinate of the weighted sum. *)
Lemma nth_weighted_sum (hidden k : nat) (a : list R) (vs : list (list R)) :
  Forall (fun v => length v = hidden) vs ->
  (k < hidden)%nat ->
  nth k (weighted_sum hidden a vs) 0
  = Rsum (zip_with (fun x v => x * nth k v 0) a vs).
Proof.
  intros Hvs Hk. revert a. induction Hvs as [|v vs Hv Hvs IH]; intros a.
  - destruct a; unfold weighted_sum; simpl; now rewrite nth_repeat.
  - destruct a as [|x a];
      [unfold weighted_sum; simpl; now rewrite nth_repeat|].
    change (weighted_sum hidden (x :: a) (v :: vs))
      with (zip_with Rplus (List.map (Rmult x) v) (weighted_sum hidden a vs)).
    rewrite nth_zip_with_Rplus
      by (rewrite ?List.length_map, ?weighted_sum_length; auto; lia).
    rewrite nth_map_Rmult, IH. reflexivity.
Qed.

(** A sum with non-negative weights lies between the bounds of its
    terms, scaled by the sum of the weights. *)
Lemma weighted_terms_bounds (f : list R -> R) (lo hi : R) (a : list R)
    (vs : list (list R)) :
  length a = length vs ->
  Forall (fun x => 0 < x) a ->
  Forall (fun v => lo <= f v <= hi) vs ->
  lo * Rsum a <= Rsum (zip_with (fun x v => x * f v) a vs) <= hi * Rsum a.
Proof.
  revert vs. induction a as [|x a IH]; intros [|v vs] Hlen Ha Hvs;
    simpl in *; try discriminate; [lra|].
  inversion Ha as [|? ? Hx Ha']; subst.
  inversion Hvs as [|? ? Hv Hvs']; subst.
  specialize (IH vs ltac:(lia) Ha' Hvs'). nra.
Qed.

(** X2.  Over the reals (exact arithmetic, without rounding), with at
    least one encoder position, every coordinate of every context vector
    lies between the least and the greatest value that this coordinate
    takes over the encoder positions: the context vector is an average
    of the encoder outputs. *)
Theorem context_vector_within_encoder_outputs {units : nat}
    (self : BahdanauAttention units) (batch_size max_len hidden : nat)
    (query : list (list R)) (values : list (list (list R)))
    (k : nat) (lo hi : R) :
  shape2 query batch_size hidden ->
  shape3 values batch_size max_len hidden ->
  (0 < max_len)%nat ->
  (k < hidden)%nat ->
  Forall (Forall (fun v => lo <= nth k v 0 <= hi)) values ->
  Forall (fun c => lo <= nth k c 0 <= hi)
    (fst (call self hidden query values)).
Proof.
  intros [Hq _] [Hv Hsh] Hpos Hk Hbounds.
  assert (Hrows : Forall (Forall (fun v => length v = hidden)) values).
  { eapply List.Forall_impl; [|exact Hsh]. intros m [_ Hm]. exact Hm. }
  rewrite call_context by (congruence || assumption).
  apply Forall_zip_with_in. intros q vs _ Hvs.
  rewrite List.Forall_forall in Hrows, Hbounds, Hsh.
  destruct (Hsh vs Hvs) as [Hlen _].
  unfold context_of. rewrite nth_weighted_sum by auto.
  assert (Hne : List.map (score_of self q) vs <> []).
  { destruct vs; [simpl in Hlen; lia|discriminate]. }
  pose proof (weighted_terms_bounds (fun v => nth k v 0) lo hi
                (weights_of self q vs) vs) as Hw.
  unfold weights_of in *.
  rewrite softmax_sums_to_one in Hw by exact Hne.
  rewrite !Rmult_1_r in Hw. apply Hw.
  - now rewrite softmax_length, List.length_map.
  - apply softmax_positive.
  - now apply Hbounds.
Qed.

(** The statement at one query against three encoder positions, for
    the first coordinate. *)
Lemma context_vector_within_encoder_outputs_witness :
  Forall (fun c => 0 <= nth 0 c 0 <= 1)
    (fst (call attention0 2 query0 values0)).
Proof.
  apply (context_vector_within_encoder_outputs attention0 1 3 2 query0
           values0 0 0 1).
  - split; [reflexivity|repeat constructor].
  - split; [reflexivity|repeat constructor].
  - lia.
  - lia.
  - repeat constructor; simpl; lra.
Defined.

(** *** A constant added to every score *)

Lemma Rsum_map_Rmult (c : R) (l : list R) :
  Rsum (List.map (Rmult c) l) = c * Rsum l.
Proof. induction l as [|a l IH]; simpl; [ring|]. rewrite IH. ring. Qed.

(** The softmax does not see a constant added to all its arguments. *)
Lemma softmax_shift (c : R) (e : list R) :
  softmax (List.map (fun x => x + c) e) = softmax e.
Proof.
  destruct e as [|a e]; [reflexivity|].
  unfold softmax. rewrite !List.map_map.
  assert (Hsum : Rsum (List.map (fun x => exp (x + c)) (a :: e))
                 = exp c * Rsum (List.map exp (a :: e))).
  { rewrite <- Rsum_map_Rmult, List.map_map. f_equal.
    apply List.map_ext. intros x. rewrite exp_plus. ring. }
  rewrite Hsum. apply List.map_ext. intros x. rewrite exp_plus.
  pose proof (exp_pos c).
  pose proof (Rsum_exp_pos (a :: e) ltac:(discriminate)).
  field. split; lra.
Qed.

(** X3.  Two attention layers with the same [W1] and [W2] whose scoring
    layers [V] differ by a constant (as when only the bias of [V]
    differs) return the same context vectors and the same attention
    weights. *)
Theorem call_ignores_score_offset {units : nat}
    (self self' : BahdanauAttention units) (c : R)
    (batch_size max_len hidden : nat)
    (query : list (list R)) (values : list (list (list R))) :
  (forall x, W1 self' x = W1 self x) ->
  (forall x, W2 self' x = W2 self x) ->
  (forall x, hd 0 (V self' x) = hd 0 (V self x) + c) ->
  shape2 query batch_size hidden ->
  shape3 values batch_size max_len hidden ->
  call self' hidden query values = call self hidden query values.
Proof.
  intros H1 H2 HV [Hq _] [Hv Hsh].
  assert (Hlen : length query = length values) by congruence.
  assert (Hrows : Forall (Forall (fun v => length v = hidden)) values).
  { eapply List.Forall_impl; [|exact Hsh]. intros m [_ Hm]. exact Hm. }
  assert (Hweights : forall q vs, weights_of self' q vs = weights_of self q vs).
  { intros q vs. unfold weights_of.
    rewrite <- (softmax_shift c (List.map (score_of self q) vs)).
    rewrite List.map_map. f_equal. apply List.map_ext. intros v.
    unfold score_of. now rewrite HV, H1, H2. }
  rewrite (surjective_pairing (call self' hidden query values)).
  rewrite (surjective_pairing (call self hidden query values)).
  rewrite !call_context, !call_weights by assumption.
  f_equal; apply zip_with_ext_in; intros q vs _ _.
  - unfold context_of. now rewrite Hweights.
  - now rewrite Hweights.
Qed.

(** The layer of [attention0] with a bias of five on its scores. *)
Definition attention0_biased : BahdanauAttention 2 :=
  {| W1 := identity2; W2 := identity2; V := Dense [[1]; [1]] [5] |}.

(** The statement for a bias of five. *)
Lemma call_ignores_score_offset_witness :
  call attention0_biased 2 query0 values0 = call attention0 2 query0 values0.
Proof.
  apply (call_ignores_score_offset attention0 attention0_biased 5 1 3 2
           query0 values0).
  - reflexivity.
  - reflexivity.
  - intros x. simpl. unfold dense_apply. simpl. ring.
  - split; [reflexivity|repeat constructor].
  - split; [reflexivity|repeat constructor].
Defined.

(** *** The order of the encoder positions *)

Lemma Rsum_Permutation (l l' : list R) :
  Permutation l l' -> Rsum l = Rsum l'.
Proof.
  induction 1 as [|x l l' _ IH|x y l|l l' l'' _ IH1 _ IH2]; simpl;
    [reflexivity|rewrite IH; ring|ring|congruence].
Qed.

Lemma zip_with_Rplus_swap (a b c : list R) :
  zip_with Rplus a (zip_with Rplus b c)
  = zip_with Rplus b (zip_with Rplus a c).
Proof.
  revert b c. induction a as [|x a IH]; intros [|y b] [|z c]; simpl;
    try reflexivity. rewrite IH. f_equal. ring.
Qed.

(** The weighted sum with weights given position by position. *)
Lemma weighted_sum_map_Permutation (hidden : nat) (f : list R -> R)
    (vs vs' : list (list R)) :
  Permutation vs vs' ->
  weighted_sum hidden (List.map f vs) vs
  = weighted_sum hidden (List.map f vs') vs'.
Proof.
  unfold weighted_sum.
  induction 1 as [|v vs vs' _ IH|v v' vs|vs vs' vs'' _ IH1 _ IH2]; simpl.
  - reflexivity.
  - now rewrite IH.
  - apply zip_with_Rplus_swap.
  - congruence.
Qed.

(** The context vector of one batch element does not depend on the
    order of the encoder positions. *)
Lemma context_of_Permutation {units : nat} (self : BahdanauAttention units)
    (hidden : nat) (q : list R) (vs vs' : list (list R)) :
  Permutation vs vs' ->
  context_of self hidden q vs = context_of self hidden q vs'.
Proof.
  intros Hperm. unfold context_of, weights_of, softmax.
  assert (Hsum : Rsum (List.map exp (List.map (score_of self q) vs))
                 = Rsum (List.map exp (List.map (score_of self q) vs'))).
  { apply Rsum_Permutation. now do 2 apply Permutation_map. }
  rewrite Hsum, !List.map_map.
  now apply (weighted_sum_map_Permutation hidden
               (fun v => exp (score_of self q v)
                         / Rsum (List.map (fun x => exp (score_of self q x))
                                   vs'))).
Qed.

Lemma zip_with_Forall2_r {A B C : Type} (f : A -> B -> C) (xs : list A)
    (ys ys' : list B) :
  Forall2 (fun y y' => forall x, f x y = f x y') ys ys' ->
  zip_with f xs ys = zip_with f xs ys'.
Proof.
  intros H. revert xs. induction H as [|y y' ys ys' Hy _ IH]; intros [|x xs];
    simpl; try reflexivity. now rewrite Hy, IH.
Qed.

(** X18.  Over the reals (exact arithmetic, where sums do not depend on
    the order of their terms), the context vectors do not depend on the
    order in which the encoder positions come: encoder outputs whose
    positions are rearranged, in any batch element, give the same
    context vectors. *)
Theorem call_context_any_order {units : nat}
    (self : BahdanauAttention units) (batch_size max_len hidden : nat)
    (query : list (list R)) (values values' : list (list (list R))) :
  shape2 query batch_size hidden ->
  shape3 values batch_size max_len hidden ->
  Forall2 (fun m m' => Permutation m m') values values' ->
  fst (call self hidden query values')
  = fst (call self hidden query values).
Proof.
  intros [Hq _] [Hv Hsh] Hperm.
  assert (Hrows : Forall (Forall (fun v => length v = hidden)) values).
  { eapply List.Forall_impl; [|exact Hsh]. intros m [_ Hm]. exact Hm. }
  assert (Hrows' : Forall (Forall (fun v => length v = hidden)) values').
  { clear Hv Hsh. induction Hperm as [|m m' values values' Hm _ IH];
      [constructor|].
    inversion Hrows as [|? ? Hrow Hrest]; subst. constructor.
    - eapply Permutation_Forall; eauto.
    - now apply IH. }
  assert (Hlen' : length values' = length values)
    by (symmetry; eapply Forall2_length; eauto).
  rewrite !call_context by (congruence || assumption).
  symmetry. apply zip_with_Forall2_r.
  eapply Forall2_impl; [exact Hperm|].
  intros m m' Hm q. now apply context_of_Permutation.
Qed.

(** The encoder positions of [values0] with the first two exchanged. *)
Definition values0_swapped : list (list (list R)) :=
  [[[0; 1]; [1; 0]; [1; 1]]].

(** The statement of X18 at three encoder positions. *)
Lemma call_context_any_order_witness :
  fst (call attention0 2 query0 values0_swapped)
  = fst (call attention0 2 query0 values0).
Proof.
  apply (call_context_any_order attention0 1 3 2 query0 values0
           values0_swapped).
  - split; [reflexivity|repeat constructor].
  - split; [reflexivity|repeat constructor].
  - constructor; [apply perm_swap|constructor].
Defined.

End Attention.

(** ** The encoder and the decoder *)

Module Model.

Import Tensor Attention.
Local Open Scope R_scope.

(** [tf.concat([a, b], axis=-1)] on tensors of rank three. *)
Definition concat_last (a b : list (list (list R)))
  : list (list (list R)) :=
  zip_with (zip_with (@app R)) a b.

(** [tf.reshape(x, (-1, x.shape[2]))]: the first two axes are merged. *)
Definition merge_leading (x : list (list (list R))) : list (list R) :=
  List.concat x.

(** [Encoder]: an embedding and a GRU that returns its sequence of
    outputs and its last state; the GRU starts from a given state. *)
Record Encoder : Type := {
  enc_embedding : nat -> list R;
  enc_gru : list (list (list R)) -> list (list R)
            -> list (list (list R)) * list (list R)
}.

(** [Encoder.call] *)
Definition Encoder_call (self : Encoder) (x : list (list nat))
    (hidden : list (list R)) : list (list (list R)) * list (list R) :=
  let x := List.map (List.map (enc_embedding self)) x in
  let '(output, state) := enc_gru self x hidden in
  (output, state).

(** [Encoder.initialize_hidden_state]: [tf.zeros((batch_sz, enc_units))] *)
Definition initialize_hidden_state (batch_sz enc_units : nat)
  : list (list R) :=
  repeat (repeat 0 enc_units) batch_sz.

(** [Decoder]: an embedding, a GRU (called without an initial state), a
    dense layer over the vocabulary, and the attention layer. *)
Record Decoder (vocab_size dec_units : nat) : Type := {
  embedding : nat -> list R;
  gru : list (list (list R)) -> list (list (list R)) * list (list R);
  fc : Layer vocab_size;
  attention : BahdanauAttention dec_units
}.
Arguments embedding {vocab_size dec_units} _ _.
Arguments gru {vocab_size dec_units} _ _.
Arguments fc {vocab_size dec_units} _.
Arguments attention {vocab_size dec_units} _.

(** [Decoder.call]; [hidden_size] is the static size of the last axis of
    [enc_output]. *)
Definition Decoder_call {vocab_size dec_units : nat}
    (self : Decoder vocab_size dec_units) (hidden_size : nat)
    (x : list (list nat)) (hidden : list (list R))
    (enc_output : list (list (list R)))
  : list (list R) * list (list R) * list (list (list R)) :=
  let '(context_vector, attention_weights) :=
    Attention.call (attention self) hidden_size hidden enc_output in
  let x := List.map (List.map (embedding self)) x in
  let x := concat_last (expand_dims_1 context_vector) x in
  let '(output, state) := gru self x in
  let output := merge_leading output in
  let x := on_rank2 (fc self) output in
  (x, state, attention_weights).

(** *** The decode step, one batch element at a time *)

Lemma concat_context_embedding (emb : nat -> list R)
    (ctx : list (list R)) (x : list (list nat)) :
  Forall (fun ids => length ids = 1%nat) x ->
  concat_last (expand_dims_1 ctx) (List.map (List.map emb) x)
  = zip_with (fun c ids => [c ++ emb (hd 0%nat ids)]) ctx x.
Proof.
  intros Hx. unfold concat_last, expand_dims_1.
  rewrite zip_with_map_l, zip_with_map_r.
  apply zip_with_ext_in. intros c ids _ Hids.
  rewrite List.Forall_forall in Hx. specialize (Hx ids Hids).
  destruct ids as [|i [|j ids]]; try discriminate. reflexivity.
Qed.

(** C3.  Every call of [Decoder.call] on token ids of shape
    [(batch_size, 1)], a decoder state of shape [(batch_size, hidden)] and
    encoder outputs of shape [(batch_size, max_len, hidden)] computes the
    attention with the decoder state as query against every encoder
    position, feeds the GRU, for every batch element, the context vector
    (the weighted sum of the encoder outputs) followed by the embedding
    of the input token, and returns the dense projection of the GRU
    output, the state of the GRU and the attention weights. *)
Theorem Decoder_call_step {vocab_size dec_units : nat}
    (self : Decoder vocab_size dec_units)
    (batch_size max_len hidden_size : nat)
    (x : list (list nat)) (hidden : list (list R))
    (enc_output : list (list (list R))) :
  shape2 x batch_size 1 ->
  shape2 hidden batch_size hidden_size ->
  shape3 enc_output batch_size max_len hidden_size ->
  Decoder_call self hidden_size x hidden enc_output
  = (let context_vector :=
       zip_with (context_of (attention self) hidden_size) hidden enc_output in
     let gru_input :=
       zip_with (fun c ids => [c ++ embedding self (hd 0%nat ids)])
         context_vector x in
     (List.map (fc self) (List.concat (fst (gru self gru_input))),
      snd (gru self gru_input),
      zip_with (fun q vs =>
                  List.map (fun a => [a]) (weights_of (attention self) q vs))
        hidden enc_output)).
Proof.
  intros [_ Hx] [Hh _] [He Hsh].
  assert (Hlen : length hidden = length enc_output) by congruence.
  assert (Hrows : Forall (Forall (fun v => length v = hidden_size)) enc_output).
  { eapply List.Forall_impl; [|exact Hsh]. intros m [_ Hm]. exact Hm. }
  unfold Decoder_call.
  rewrite (surjective_pairing
             (Attention.call (attention self) hidden_size hidden enc_output)).
  rewrite call_context, call_weights by assumption.
  rewrite concat_context_embedding by exact Hx.
  cbv zeta.
  destruct (gru self _) as [output state]. reflexivity.
Qed.

(** A small decoder: tokens are embedded as their index, the recurrent
    unit passes its input through, the projection sums three features. *)
Definition small_decoder : Decoder 1 2 :=
  {| embedding := fun i => [INR i];
     gru := fun x => (x, List.concat x);
     fc := Dense [[1]; [1]; [1]] [0];
     attention := attention0 |}.

(** C3 at one token, one query and three encoder positions. *)
Lemma Decoder_call_step_witness :
  Decoder_call small_decoder 2 [[1%nat]] query0 values0
  = (let context_vector :=
       zip_with (context_of (attention small_decoder) 2) query0 values0 in
     let gru_input :=
       zip_with (fun c ids => [c ++ embedding small_decoder (hd 0%nat ids)])
         context_vector [[1%nat]] in
     (List.map (fc small_decoder) (List.concat (fst (gru small_decoder gru_input))),
      snd (gru small_decoder gru_input),
      zip_with (fun q vs =>
                  List.map (fun a => [a]) (weights_of (attention small_decoder) q vs))
        query0 values0)).
Proof.
  apply (Decoder_call_step small_decoder 1 3 2 [[1%nat]] query0 values0).
  - split; [reflexivity|repeat constructor].
  - split; [reflexivity|repeat constructor].
  - split; [reflexivity|repeat constructor].
Defined.

(** *** What a decode step depends on *)

(** The predictions and the state of a decode step, from the context
    vectors. *)
Lemma Decoder_call_from_context {vocab_size dec_units : nat}
    (self : Decoder vocab_size dec_units)
    (batch_size max_len hidden_size : nat)
    (x : list (list nat)) (hidden : list (list R))
    (enc_output : list (list (list R))) :
  shape2 x batch_size 1 ->
  shape2 hidden batch_size hidden_size ->
  shape3 enc_output batch_size max_len hidden_size ->
  fst (Decoder_call self hidden_size x hidden enc_output)
  = (let gru_input :=
       zip_with (fun c ids => [c ++ embedding self (hd 0%nat ids)])
         (zip_with (context_of (attention self) hidden_size) hidden enc_output)
         x in
     (List.map (fc self) (List.concat (fst (gru self gru_input))),
      snd (gru self gru_input))).
Proof.
  intros [_ Hx] [Hh _] [He Hsh].
  assert (Hlen : length hidden = length enc_output) by congruence.
  assert (Hrows : Forall (Forall (fun v => length v = hidden_size)) enc_output).
  { eapply List.Forall_impl; [|exact Hsh]. intros m [_ Hm]. exact Hm. }
  unfold Decoder_call.
  rewrite (surjective_pairing
             (Attention.call (attention self) hidden_size hidden enc_output)).
  rewrite call_context by assumption.
  rewrite concat_context_embedding by exact Hx.
  cbv zeta. destruct (gru self _) as [output state]. reflexivity.
Qed.

(** X4.  The GRU of the decoder is called without an initial state: the
    decoder state given to [Decoder.call] reaches the predictions and
    the new state only through the context vectors of the attention.
    Two decoder states with the same context vectors give the same
    predictions and the same new state. *)
Theorem Decoder_call_state_only_through_context {vocab_size dec_units : nat}
    (self : Decoder vocab_size dec_units)
    (batch_size max_len hidden_size : nat)
    (x : list (list nat)) (hidden hidden' : list (list R))
    (enc_output : list (list (list R))) :
  shape2 x batch_size 1 ->
  shape2 hidden batch_size hidden_size ->
  shape2 hidden' batch_size hidden_size ->
  shape3 enc_output batch_size max_len hidden_size ->
  zip_with (context_of (attention self) hidden_size) hidden enc_output
  = zip_with (context_of (attention self) hidden_size) hidden' enc_output ->
  fst (Decoder_call self hidden_size x hidden enc_output)
  = fst (Decoder_call self hidden_size x hidden' enc_output).
Proof.
  intros Hx Hh Hh' He Hctx.
  rewrite (Decoder_call_from_context self batch_size max_len hidden_size
             x hidden enc_output) by assumption.
  rewrite (Decoder_call_from_context self batch_size max_len hidden_size
             x hidden' enc_output) by assumption.
  now rewrite Hctx.
Qed.

(** With one encoder position the only weight is one, whatever the
    query. *)
Lemma context_of_single_position {units : nat}
    (att : BahdanauAttention units) (q : list R) :
  context_of att 2 q [[1; 2]] = [1 * 1 + 0; 1 * 2 + 0].
Proof.
  unfold context_of, weights_of, softmax, weighted_sum. simpl.
  pose proof (exp_pos (score_of att q [1; 2])) as Hpos.
  assert (Hone : exp (score_of att q [1; 2])
                 / (exp (score_of att q [1; 2]) + 0) = 1)
    by (field; lra).
  now rewrite Hone.
Qed.

(** The statement for two decoder states against one encoder
    position. *)
Lemma Decoder_call_state_only_through_context_witness :
  fst (Decoder_call small_decoder 2 [[1%nat]] [[1; 2]] [[[1; 2]]])
  = fst (Decoder_call small_decoder 2 [[1%nat]] [[2; 1]] [[[1; 2]]]).
Proof.
  apply (Decoder_call_state_only_through_context small_decoder 1 1 2
           [[1%nat]] [[1; 2]] [[2; 1]] [[[1; 2]]]).
  - split; [reflexivity|repeat constructor].
  - split; [reflexivity|repeat constructor].
  - split; [reflexivity|repeat constructor].
  - split; [reflexivity|repeat constructor].
  - cbn [zip_with].
    now rewrite !context_of_single_position.
Defined.

(** Whatever its inputs, every row of the predictions returned by
    [Decoder.call] has one score for each of the [vocab_size] token
    ids. *)
Lemma Decoder_call_scores_every_token {vocab_size dec_units : nat}
    (self : Decoder vocab_size dec_units) (hidden_size : nat)
    (x : list (list nat)) (hidden : list (list R))
    (enc_output : list (list (list R))) :
  Forall (fun row => length row = vocab_size)
    (fst (fst (Decoder_call self hidden_size x hidden enc_output))).
Proof.
  unfold Decoder_call.
  destruct (Attention.call _ _ _ _) as [context_vector attention_weights].
  destruct (gru self _) as [output state]. cbn [fst].
  unfold on_rank2. apply List.Forall_forall. intros row Hrow.
  apply List.in_map_iff in Hrow. destruct Hrow as (v & <- & _).
  apply apply_units.
Qed.

End Model.

(** ** The loss and the training step *)

Module Training.

Import Py Tensor.
Local Open Scope R_scope.

Definition BATCH_SIZE : nat := 64.

(** *** Entries of float tensors *)

(** An entry of a float tensor: a real number or NaN.  Arithmetic on
    real entries is exact (rounding, overflow and the infinities are not
    modelled); NaN is absorbing, in particular [NaN * 0] is NaN. *)
Inductive number : Type :=
  | Real (r : R)
  | NaN.

Definition finite (x : number) : Prop :=
  match x with
  | Real _ => True
  | NaN => False
  end.

Definition nadd (x y : number) : number :=
  match x, y with
  | Real a, Real b => Real (a + b)
  | _, _ => NaN
  end.

Definition nmul (x y : number) : number :=
  match x, y with
  | Real a, Real b => Real (a * b)
  | _, _ => NaN
  end.

(** Division by a count.  The code divides by a count of zero only a sum
    over no entries, which is zero: [0 / 0] is NaN. *)
Definition ndiv (x : number) (n : nat) : number :=
  match x with
  | Real a => if Nat.eqb n 0 then NaN else Real (a / INR n)
  | NaN => NaN
  end.

(** [tf.reduce_sum] and [tf.reduce_mean] of a vector. *)
Definition nsum (l : list number) : number := fold_right nadd (Real 0) l.
Definition reduce_mean (l : list number) : number := ndiv (nsum l) (length l).

(** The real entries of a vector in which no entry is NaN. *)
Fixpoint reals (l : list number) : option (list R) :=
  match l with
  | [] => Some []
  | Real r :: l' => option_map (cons r) (reals l')
  | NaN :: _ => None
  end.

(** *** The loss object and [loss_function] *)

(** [SparseCategoricalCrossentropy(from_logits=True, reduction='none')]
    on one example: minus the logarithm of the softmax probability of
    the true class, NaN when a logit is NaN.  A label that is not below
    the number of classes is rejected. *)
Definition sparse_categorical_crossentropy (y : nat) (logits : list number)
  : outcome number :=
  if (y <? length logits)%nat then
    Returns (match reals logits with
             | Some l => Real (ln (Rsum (List.map exp l)) - nth y l 0)
             | None => NaN
             end)
  else Raises InvalidArgumentError.

(** The loss object on a batch, one loss for every example.  The labels
    and the logits must have the same batch size. *)
Definition loss_object (real : list nat) (pred : list (list number))
  : outcome (list number) :=
  if Nat.eqb (length real) (length pred) then
    collect (zip_with sparse_categorical_crossentropy real pred)
  else Raises ValueError.

(** [tf.cast] of a boolean to the type of the loss. *)
Definition cast (b : bool) : number := if b then Real 1 else Real 0.

Definition loss_function (real : list nat) (pred : list (list number))
  : outcome number :=
  let mask := List.map negb (List.map (fun y => Nat.eqb y 0) real) in
  bind (loss_object real pred) (fun loss_ =>
  let mask := List.map cast mask in
  let loss_ := broadcast nmul loss_ mask in
  Returns (reduce_mean loss_)).

(** [targ[:, t]] for [t] below [targ.shape[1]]. *)
Definition column (t : nat) (targ : list (list nat)) : list nat :=
  List.map (fun row => nth t row 0%nat) targ.

(** [targ.shape[1]] of a batch that is not empty. *)
Definition shape_1 (targ : list (list nat)) : nat := length (hd [] targ).

(** *** The masked loss *)

(** The contribution of a position to the mean, by the words of the
    masking: nothing at a padding position, the full cross-entropy at
    any other. *)
Definition masked (y : nat) (l : number) : number :=
  if Nat.eqb y 0 then Real 0 else l.

Lemma collect_length {A : Type} (l : list (outcome A)) (xs : list A) :
  collect l = Returns xs -> length xs = length l.
Proof.
  revert xs. induction l as [|m l IH]; intros xs H; simpl in H.
  - now injection H as <-.
  - destruct m as [a|e]; [|discriminate]. simpl in H.
    destruct (collect l) as [rest|e]; [|discriminate]. simpl in H.
    injection H as <-. simpl. now rewrite (IH rest eq_refl).
Qed.

Lemma loss_object_returns (real : list nat) (pred : list (list number))
    (losses : list number) :
  loss_object real pred = Returns losses ->
  length pred = length real
  /\ collect (zip_with sparse_categorical_crossentropy real pred)
     = Returns losses
  /\ length losses = length real.
Proof.
  unfold loss_object. intros H.
  destruct (Nat.eqb_spec (length real) (length pred)) as [Hlen|_];
    [|discriminate].
  split; [now symmetry|]. split; [exact H|].
  apply collect_length in H. rewrite length_zip_with in H. lia.
Qed.

Lemma nmul_mask (y : nat) (l : number) :
  (y = 0%nat -> l <> NaN) ->
  nmul l (cast (negb (Nat.eqb y 0))) = masked y l.
Proof.
  intros Hy. unfold masked.
  destruct (Nat.eqb_spec y 0) as [->|_], l as [a|]; simpl;
    try reflexivity; try (f_equal; ring).
  now destruct Hy.
Qed.

Lemma masked_losses (real : list nat) (losses : list number) :
  (forall i, real !! i = Some 0%nat -> losses !! i <> Some NaN) ->
  zip_with nmul losses
    (List.map cast (List.map negb (List.map (fun y => Nat.eqb y 0) real)))
  = zip_with masked real losses.
Proof.
  revert losses.
  induction real as [|y real IH]; intros [|l losses] H; simpl;
    try reflexivity.
  f_equal.
  - apply nmul_mask. intros ->. specialize (H 0%nat eq_refl). simpl in H.
    congruence.
  - apply IH. intros i. exact (H (S i)).
Qed.

(** The loss when the cross-entropies of the padding positions are not
    NaN. *)
Lemma loss_function_masked (real : list nat) (pred : list (list number))
    (losses : list number) :
  loss_object real pred = Returns losses ->
  (forall i, real !! i = Some 0%nat -> losses !! i <> Some NaN) ->
  loss_function real pred
  = Returns (reduce_mean (zip_with masked real losses)).
Proof.
  intros Hobj Hpad. unfold loss_function. rewrite Hobj, bind_returns.
  destruct (loss_object_returns real pred losses Hobj) as (_ & _ & Hlen).
  rewrite broadcast_same_length by (rewrite !List.length_map; exact Hlen).
  now rewrite masked_losses.
Qed.





(** *** Bounds of the loss *)

Lemma exp_nth_le_Rsum (y : nat) (logits : list R) :
  (y < length logits)%nat ->
  exp (nth y logits 0) <= Rsum (List.map exp logits).
Proof.
  revert y. induction logits as [|a l IH]; intros y Hy; simpl in *; [lia|].
  assert (Hpos : 0 <= Rsum (List.map exp l)).
  { clear. induction l as [|b l IH]; simpl; [lra|].
    pose proof (exp_pos b). lra. }
  destruct y as [|y].
  - lra.
  - specialize (IH y ltac:(lia)). pose proof (exp_pos a). lra.
Qed.

Lemma reals_length (l : list number) (rs : list R) :
  reals l = Some rs -> length rs = length l.
Proof.
  revert rs. induction l as [|[r|] l IH]; intros rs H; simpl in H;
    [now injection H as <-| |discriminate].
  destruct (reals l) as [rs'|]; [|discriminate]. simpl in H.
  injection H as <-. simpl. now rewrite (IH rs' eq_refl).
Qed.

Lemma reals_finite (l : list number) :
  Forall finite l -> exists rs, reals l = Some rs.
Proof.
  induction 1 as [|[r|] l Hx _ [rs IH]]; simpl.
  - now exists [].
  - rewrite IH. simpl. now eexists.
  - destruct Hx.
Qed.

(** The cross-entropy of a class that has a score, among finite scores,
    is a real number that is not negative. *)
Lemma sparse_categorical_crossentropy_nonneg (y : nat)
    (logits : list number) :
  (y < length logits)%nat -> Forall finite logits ->
  exists r, sparse_categorical_crossentropy y logits = Returns (Real r)
            /\ 0 <= r.
Proof.
  intros Hy Hfin. unfold sparse_categorical_crossentropy.
  destruct (Nat.ltb_spec y (length logits)) as [_|]; [|lia].
  destruct (reals_finite logits Hfin) as [rs Hrs]. rewrite Hrs.
  eexists. split; [reflexivity|].
  rewrite <- (reals_length logits rs Hrs) in Hy.
  pose proof (exp_nth_le_Rsum y rs Hy) as Hle.
  pose proof (exp_pos (nth y rs 0)) as Hpos.
  assert (Hln : ln (exp (nth y rs 0)) <= ln (Rsum (List.map exp rs))).
  { destruct Hle as [Hlt|Heq]; [left; now apply ln_increasing|].
    rewrite Heq. lra. }
  rewrite ln_exp in Hln. lra.
Qed.

Lemma Rsum_nonneg (l : list R) : Forall (fun x => 0 <= x) l -> 0 <= Rsum l.
Proof. induction 1 as [|x l Hx _ IH]; simpl; lra. Qed.

Lemma nsum_reals (rs : list R) : nsum (List.map Real rs) = Real (Rsum rs).
Proof.
  induction rs as [|r rs IH]; [reflexivity|].
  cbn [List.map nsum fold_right]. fold (nsum (List.map Real rs)).
  now rewrite IH.
Qed.

(** On scores that are finite and cover every label, the loss object
    returns real cross-entropies that are not negative. *)
Lemma loss_object_nonneg (real : list nat) (pred : list (list number)) :
  Forall2 (fun y logits => (y < length logits)%nat /\ Forall finite logits)
    real pred ->
  exists rs, loss_object real pred = Returns (List.map Real rs)
             /\ length rs = length real
             /\ Forall (fun r => 0 <= r) rs.
Proof.
  intros H. unfold loss_object.
  rewrite (Forall2_length _ _ _ H), Nat.eqb_refl.
  induction H as [|y l real pred [Hy Hfin] _ (rs & Hrs & Hlen & Hpos)].
  - exists []. repeat split. constructor.
  - destruct (sparse_categorical_crossentropy_nonneg y l Hy Hfin)
      as (r & Hr & Hr0).
    exists (r :: rs). simpl. rewrite Hr, Hrs. simpl.
    repeat split; [now rewrite Hlen|now constructor].
Qed.

Lemma masked_reals (real : list nat) (rs : list R) :
  zip_with masked real (List.map Real rs)
  = List.map Real (zip_with (fun y r => if Nat.eqb y 0 then 0 else r) real rs).
Proof.
  revert rs. induction real as [|y real IH]; intros [|r rs]; simpl;
    try reflexivity.
  rewrite IH. f_equal. unfold masked. now destruct (Nat.eqb y 0).
Qed.

(** X5.  For a batch that is not empty, with finite predictions that
    score every target id, the masked loss is a real number that is not
    negative. *)
Theorem loss_function_nonneg (real : list nat) (pred : list (list number)) :
  real <> [] ->
  Forall2 (fun y logits => (y < length logits)%nat /\ Forall finite logits)
    real pred ->
  exists v, loss_function real pred = Returns (Real v) /\ 0 <= v.
Proof.
  intros Hne Hin.
  destruct (loss_object_nonneg real pred Hin) as (rs & Hobj & Hlen & Hpos).
  rewrite (loss_function_masked real pred (List.map Real rs) Hobj).
  2:{ intros i _ Hi. clear -Hi. revert i Hi.
      induction rs as [|r rs IH]; intros [|i] Hi; simpl in Hi;
        try discriminate. now apply (IH i). }
  rewrite masked_reals. unfold reduce_mean.
  rewrite nsum_reals, List.length_map, length_zip_with.
  replace (length real `min` length rs) with (length real) by lia.
  unfold ndiv.
  destruct (Nat.eqb_spec (length real) 0) as [H0|H0].
  { destruct real; [congruence|discriminate]. }
  eexists. split; [reflexivity|].
  apply Rmult_le_pos.
  - apply Rsum_nonneg. clear -Hpos Hlen. revert rs Hlen Hpos.
    induction real as [|y real IH]; intros [|r rs] Hlen Hpos; simpl;
      constructor.
    + inversion Hpos; subst. destruct (Nat.eqb y 0); [lra|assumption].
    + inversion Hpos; subst. apply IH; [simpl in Hlen; lia|assumption].
  - left. apply Rinv_0_lt_compat. apply lt_0_INR. lia.
Qed.

(** The statement at a batch of two targets. *)
Lemma loss_function_nonneg_witness :
  exists v,
    loss_function [3%nat; 0%nat]
      [[Real 1; Real 2; Real 3; Real 4]; [Real 4; Real 3; Real 2; Real 1]]
    = Returns (Real v) /\ 0 <= v.
Proof.
  apply (loss_function_nonneg [3%nat; 0%nat]
           [[Real 1; Real 2; Real 3; Real 4];
            [Real 4; Real 3; Real 2; Real 1]]).
  - discriminate.
  - repeat constructor.
Defined.

(** X6.  Over the reals (exact arithmetic), on a batch in which every
    target is the padding id and every row of predictions holds finite
    scores, at least one, the loss is zero whatever the scores are. *)
Theorem loss_function_all_padding (n : nat) (pred : list (list number)) :
  (0 < n)%nat ->
  length pred = n ->
  Forall (fun logits => logits <> [] /\ Forall finite logits) pred ->
  loss_function (repeat 0%nat n) pred = Returns (Real 0).
Proof.
  intros Hn Hlen Hfin.
  assert (Hin : Forall2 (fun y logits =>
                           (y < length logits)%nat /\ Forall finite logits)
                  (repeat 0%nat n) pred).
  { subst n. clear Hn.
    induction Hfin as [|l pred [Hl Hf] _ IH]; simpl; constructor.
    - split; [|exact Hf]. destruct l; [congruence|simpl; lia].
    - apply IH. }
  destruct (loss_object_nonneg _ pred Hin) as (rs & Hobj & Hrs & _).
  rewrite (loss_function_masked _ pred (List.map Real rs) Hobj).
  2:{ intros i _ Hi. clear -Hi. revert i Hi.
      induction rs as [|r rs IH]; intros [|i] Hi; simpl in Hi;
        try discriminate. now apply (IH i). }
  rewrite masked_reals. unfold reduce_mean.
  rewrite nsum_reals, List.length_map, length_zip_with, repeat_length.
  rewrite repeat_length in Hrs.
  replace (n `min` length rs) with n by lia.
  unfold ndiv. destruct (Nat.eqb_spec n 0) as [|_]; [lia|].
  do 2 f_equal.
  assert (Hzero :
    Rsum (zip_with (fun y r => if Nat.eqb y 0 then 0 else r)
            (repeat 0%nat n) rs) = 0).
  { clear. revert rs. induction n as [|n IH]; intros [|r rs];
      simpl; try reflexivity. rewrite IH. ring. }
  rewrite Hzero. unfold Rdiv. ring.
Qed.

(** The statement at a batch of two padding targets. *)
Lemma loss_function_all_padding_witness :
  loss_function (repeat 0%nat 2)
    [[Real 1; Real 2; Real 3; Real 4]; [Real 4; Real 3; Real 2; Real 1]]
  = Returns (Real 0).
Proof.
  apply (loss_function_all_padding 2
           [[Real 1; Real 2; Real 3; Real 4];
            [Real 4; Real 3; Real 2; Real 1]]).
  - lia.
  - reflexivity.
  - repeat constructor; discriminate.
Defined.

(** *** The training step *)

(** The variable [loss] of [train_step]: the Python integer it is
    initialised with, or the scalar tensor that the first [+=] makes of
    it. *)
Inductive loss_value : Type :=
  | PyInt (n : Z)
  | Scalar (x : number).

(** [loss += x] for a scalar tensor [x]. *)
Definition iadd (l : loss_value) (x : number) : loss_value :=
  match l with
  | PyInt n => Scalar (nadd (Real (IZR n)) x)
  | Scalar y => Scalar (nadd y x)
  end.

(** [loss / int(n)]: Python's division while [loss] is an integer, the
    division of the tensor afterwards. *)
Definition truediv (l : loss_value) (n : nat) : outcome number :=
  match l with
  | PyInt z =>
      if Nat.eqb n 0 then Raises ZeroDivisionError
      else Returns (Real (IZR z / INR n))
  | Scalar x => Returns (ndiv x n)
  end.

(** [for t in ts: body], stopping at the first error. *)
Definition for_each {S : Type} (body : S -> nat -> outcome S)
    (ts : list nat) (s : S) : outcome S :=
  fold_left (fun acc t => bind acc (fun s' => body s' t)) ts (Returns s).

(** The sum, added to [acc] one after the other, of losses that may
    fail; the first failure is the result. *)
Fixpoint accumulate (acc : loss_value) (losses : list (outcome number))
  : outcome loss_value :=
  match losses with
  | [] => Returns acc
  | l :: losses' => bind l (fun x => accumulate (iadd acc x) losses')
  end.

Lemma accumulate_snoc (acc : loss_value) (losses : list (outcome number))
    (l : outcome number) :
  accumulate acc (losses ++ [l])
  = bind (accumulate acc losses) (fun a =>
    bind l (fun x => Returns (iadd a x))).
Proof.
  revert acc. induction losses as [|m losses IH]; intros acc; simpl.
  - now destruct l.
  - destruct m as [x|e]; simpl; [apply IH|reflexivity].
Qed.

Lemma for_each_snoc {S : Type} (body : S -> nat -> outcome S)
    (ts : list nat) (t : nat) (s : S) :
  for_each body (ts ++ [t]) s = bind (for_each body ts s) (fun s' => body s' t).
Proof. unfold for_each. now rewrite fold_left_app. Qed.

(** After at least one step the accumulated loss is a tensor. *)
Lemma accumulate_from_scalar (losses : list (outcome number)) (y : number)
    (a : loss_value) :
  accumulate (Scalar y) losses = Returns a -> exists x, a = Scalar x.
Proof.
  revert y. induction losses as [|m losses IH]; intros y; simpl.
  - intros [= <-]. eauto.
  - destruct m as [z|e]; [|discriminate]. simpl. apply IH.
Qed.

Lemma accumulate_scalar (acc a : loss_value) (l : outcome number)
    (losses : list (outcome number)) :
  accumulate acc (l :: losses) = Returns a -> exists x, a = Scalar x.
Proof.
  simpl. destruct l as [x|e]; [|discriminate]. simpl.
  destruct acc; simpl; apply accumulate_from_scalar.
Qed.

Section TrainStep.

(** The values of trainable variables, their gradients, and the state of
    the optimizer. *)
Variables value grad opt : Type.

(** The encoder and the decoder as functions of the values of their
    trainable variables. *)
Variable encoder :
  list value -> list (list nat) -> list (list R)
  -> list (list (list R)) * list (list R).
Variable decoder :
  list value -> list (list nat) -> list (list R) -> list (list (list R))
  -> list (list number) * list (list R) * list (list (list R)).

(** The gradients, one for each variable, of a loss recorded on the tape
    as a function of the variables. *)
Variable gradient :
  (list value -> outcome loss_value) -> list value -> list grad.

(** [tape.gradient(loss, variables)]: the target has to be a tensor. *)
Definition tape_gradient (recorded : list value -> outcome loss_value)
    (l : loss_value) (variables : list value) : outcome (list grad) :=
  match l with
  | PyInt _ => Raises TypeError
  | Scalar _ => Returns (gradient recorded variables)
  end.

(** [optimizer.apply_gradients]: the new state of the optimizer and the
    new values of the variables. *)
Variable apply_gradients : opt -> list (grad * value) -> opt * list value.

(** [targ_lang.word_index] *)
Variable word_index : gmap (list N) nat.

Record TrainState : Type := {
  encoder_variables : list value;
  decoder_variables : list value;
  optimizer_state : opt
}.

(** The variables of the loop of [train_step]. *)
Record LoopState : Type := {
  loss : loss_value;
  dec_hidden : list (list R);
  dec_input : list (list nat)
}.

(** The body of the loop at step [t]. *)
Definition loop_body (dec_vars : list value) (targ : list (list nat))
    (enc_output : list (list (list R))) (st : LoopState) (t : nat)
  : outcome LoopState :=
  let '(predictions, dec_hidden', _) :=
    decoder dec_vars (dec_input st) (dec_hidden st) enc_output in
  bind (loss_function (column t targ) predictions) (fun l =>
  Returns {| loss := iadd (loss st) l;
             dec_hidden := dec_hidden';
             dec_input := expand_dims_1 (column t targ) |}).

(** The state in which the loop starts. *)
Definition loop_init (start : nat) (enc_hidden : list (list R))
  : LoopState :=
  {| loss := PyInt 0;
     dec_hidden := enc_hidden;
     dec_input := expand_dims_1 (repeat start BATCH_SIZE) |}.

(** The part of [train_step] under the gradient tape: the accumulated
    loss for given values of the variables. *)
Definition forward_loss (start : nat) (inp targ : list (list nat))
    (enc_hidden : list (list R)) (enc_vars dec_vars : list value)
  : outcome loss_value :=
  let '(enc_output, enc_hidden) := encoder enc_vars inp enc_hidden in
  bind (for_each (loop_body dec_vars targ enc_output)
          (seq 1 (shape_1 targ - 1)) (loop_init start enc_hidden))
    (fun st => Returns (loss st)).

Definition train_step (st : TrainState) (inp targ : list (list nat))
    (enc_hidden : list (list R)) : outcome (number * TrainState) :=
  bind (getitem_str word_index (Text.lit "<start>")) (fun start =>
  let n := length (encoder_variables st) in
  let recorded := forward_loss start inp targ enc_hidden in
  bind (recorded (encoder_variables st) (decoder_variables st)) (fun loss =>
  bind (truediv loss (shape_1 targ)) (fun batch_loss =>
  let variables := encoder_variables st ++ decoder_variables st in
  bind (tape_gradient (fun v => recorded (take n v) (drop n v)) loss
          variables) (fun gradients =>
  let '(opt', values') :=
    apply_gradients (optimizer_state st) (combine gradients variables) in
  Returns (batch_loss,
           {| encoder_variables := take n values';
              decoder_variables := drop n values';
              optimizer_state := opt' |}))))).

(** *** Teacher forcing *)

(** The decoder input of step [t] under teacher forcing: the ['<start>']
    token at the first step, the target of the previous position
    afterwards. *)
Definition teacher_input (start : nat) (targ : list (list nat)) (t : nat)
  : list (list nat) :=
  if Nat.eqb t 1 then expand_dims_1 (repeat start BATCH_SIZE)
  else expand_dims_1 (column (t - 1) targ).

(** The decoder state after [k] teacher-forced steps: the state output
    of the decoder called on the teacher input of step [k] and on the
    state after [k - 1] steps. *)
Fixpoint hidden_after (dec_vars : list value) (start : nat)
    (targ : list (list nat)) (enc_output : list (list (list R)))
    (enc_hidden : list (list R)) (k : nat) : list (list R) :=
  match k with
  | O => enc_hidden
  | S k' =>
      snd (fst (decoder dec_vars (teacher_input start targ k)
                  (hidden_after dec_vars start targ enc_output enc_hidden k')
                  enc_output))
  end.

(** The predictions of step [t] (from 1) under teacher forcing. *)
Definition predictions_at (dec_vars : list value) (start : nat)
    (targ : list (list nat)) (enc_output : list (list (list R)))
    (enc_hidden : list (list R)) (t : nat) : list (list number) :=
  fst (fst (decoder dec_vars (teacher_input start targ t)
              (hidden_after dec_vars start targ enc_output enc_hidden (t - 1))
              enc_output)).

(** The loss of the teacher-forced decoder: over the steps
    [t = 1 .. targ.shape[1] - 1], the masked loss between [targ[:, t]]
    and the predictions of step [t]. *)
Definition teacher_forced_loss (start : nat) (inp targ : list (list nat))
    (enc_hidden : list (list R)) (enc_vars dec_vars : list value)
  : outcome loss_value :=
  let '(enc_output, enc_hidden) := encoder enc_vars inp enc_hidden in
  accumulate (PyInt 0)
    (List.map
       (fun t => loss_function (column t targ)
                   (predictions_at dec_vars start targ enc_output
                      enc_hidden t))
       (seq 1 (shape_1 targ - 1))).

Lemma predictions_at_S (dec_vars : list value) (start : nat)
    (targ : list (list nat)) (enc_output : list (list (list R)))
    (enc_hidden : list (list R)) (k : nat) :
  predictions_at dec_vars start targ enc_output enc_hidden (S k)
  = fst (fst (decoder dec_vars (teacher_input start targ (S k))
                (hidden_after dec_vars start targ enc_output enc_hidden k)
                enc_output)).
Proof. unfold predictions_at. now replace (S k - 1)%nat with k by lia. Qed.

(** The state of the loop after [k] steps. *)
Lemma loop_after (dec_vars : list value) (start : nat)
    (targ : list (list nat)) (enc_output : list (list (list R)))
    (enc_hidden : list (list R)) (k : nat) :
  for_each (loop_body dec_vars targ enc_output) (seq 1 k)
    (loop_init start enc_hidden)
  = bind (accumulate (PyInt 0)
            (List.map
               (fun t => loss_function (column t targ)
                           (predictions_at dec_vars start targ enc_output
                              enc_hidden t))
               (seq 1 k)))
      (fun l =>
         Returns
           {| loss := l;
              dec_hidden :=
                hidden_after dec_vars start targ enc_output enc_hidden k;
              dec_input := teacher_input start targ (S k) |}).
Proof.
  induction k as [|k IH]; [reflexivity|].
  rewrite seq_S, for_each_snoc, IH, List.map_app.
  change (1 + k)%nat with (S k). cbn [List.map].
  rewrite accumulate_snoc.
  destruct (accumulate (PyInt 0) _) as [a|e]; [|reflexivity].
  rewrite !bind_returns. unfold loop_body.
  cbn [loss dec_hidden dec_input].
  rewrite predictions_at_S. cbn [hidden_after].
  destruct (decoder dec_vars (teacher_input start targ (S k))
              (hidden_after dec_vars start targ enc_output enc_hidden k)
              enc_output) as [[predictions h'] w].
  cbn [fst snd].
  destruct (loss_function (column (S k) targ) predictions) as [x|e];
    reflexivity.
Qed.

(** The loop of [train_step] computes the loss of the teacher-forced
    decoder. *)
Lemma forward_loss_teacher_forced (start : nat) (inp targ : list (list nat))
    (enc_hidden : list (list R)) (enc_vars dec_vars : list value) :
  forward_loss start inp targ enc_hidden enc_vars dec_vars
  = teacher_forced_loss start inp targ enc_hidden enc_vars dec_vars.
Proof.
  unfold forward_loss, teacher_forced_loss.
  destruct (encoder enc_vars inp enc_hidden) as [enc_output enc_hidden'].
  rewrite loop_after.
  now destruct (accumulate (PyInt 0) _).
Qed.

(** The part of [train_step] that follows the loop. *)
Lemma train_step_after_loop (st : TrainState) (inp targ : list (list nat))
    (enc_hidden : list (list R)) (start : nat) (l : number) :
  word_index !! Text.lit "<start>" = Some start ->
  forward_loss start inp targ enc_hidden (encoder_variables st)
    (decoder_variables st) = Returns (Scalar l) ->
  let n := length (encoder_variables st) in
  let variables := encoder_variables st ++ decoder_variables st in
  let gradients :=
    gradient (fun v => forward_loss start inp targ enc_hidden
                         (take n v) (drop n v)) variables in
  let updated :=
    apply_gradients (optimizer_state st) (combine gradients variables) in
  train_step st inp targ enc_hidden
  = Returns (ndiv l (shape_1 targ),
             {| encoder_variables := take n (snd updated);
                decoder_variables := drop n (snd updated);
                optimizer_state := fst updated |}).
Proof.
  intros Hstart Hloss n variables gradients updated.
  unfold train_step. rewrite (getitem_str_some _ _ _ Hstart), bind_returns.
  cbv zeta. rewrite Hloss, bind_returns.
  cbn [truediv tape_gradient]. rewrite !bind_returns.
  fold n variables gradients updated.
  now destruct updated as [opt' values'].
Qed.

(** C2.  Whatever the decoder computes, the loss that the loop of
    [train_step] accumulates is the one obtained by calling the decoder,
    at every step [t] with [1 <= t < targ.shape[1]], on the ['<start>']
    column when [t = 1] and on [targ[:, t-1]] afterwards, with the state
    that the decoder returned at the step before; the predictions of the
    step enter the masked loss against [targ[:, t]] and nothing else.
    [train_step] returns this loss divided by [targ.shape[1]]. *)
Theorem train_step_teacher_forcing (st : TrainState)
    (inp targ : list (list nat)) (enc_hidden : list (list R)) :
  (forall (start : nat) (enc_vars dec_vars : list value),
     forward_loss start inp targ enc_hidden enc_vars dec_vars
     = let '(enc_output, enc_hidden') := encoder enc_vars inp enc_hidden in
       accumulate (PyInt 0)
         (List.map
            (fun t =>
               let dec_input :=
                 if Nat.eqb t 1 then expand_dims_1 (repeat start BATCH_SIZE)
                 else expand_dims_1 (column (t - 1) targ) in
               let dec_hidden :=
                 hidden_after dec_vars start targ enc_output enc_hidden'
                   (t - 1) in
               let '(predictions, _, _) :=
                 decoder dec_vars dec_input dec_hidden enc_output in
               loss_function (column t targ) predictions)
            (seq 1 (shape_1 targ - 1))))
  /\ (forall (start : nat) (l : number),
        word_index !! Text.lit "<start>" = Some start ->
        forward_loss start inp targ enc_hidden (encoder_variables st)
          (decoder_variables st) = Returns (Scalar l) ->
        exists st' : TrainState,
          train_step st inp targ enc_hidden
          = Returns (ndiv l (shape_1 targ), st')).
Proof.
  split.
  - intros start enc_vars dec_vars.
    rewrite forward_loss_teacher_forced. unfold teacher_forced_loss.
    destruct (encoder enc_vars inp enc_hidden) as [enc_output enc_hidden'].
    f_equal. apply List.map_ext. intros t.
    unfold predictions_at, teacher_input. cbv zeta.
    now destruct (decoder dec_vars _ _ enc_output) as [[predictions h'] w].
  - intros start l Hstart Hloss.
    rewrite (train_step_after_loop st inp targ enc_hidden start l Hstart
               Hloss).
    eexists. reflexivity.
Qed.

(** *** The loss and the update of [train_step] *)

(** C4, amended.  On a batch of targets with at least two columns, with
    ['<start>'] in the target vocabulary and a forward pass that raises
    no error, [train_step] returns the accumulated loss divided by
    [targ.shape[1]], where the accumulated loss is the sum over
    [t = 1 .. targ.shape[1] - 1] of the masked loss between [targ[:, t]]
    and the predictions of step [t]; the gradient is taken of the
    accumulated loss with respect to the variables of the encoder
    followed by those of the decoder, and the optimizer applies it to
    these variables. *)
Theorem train_step_loss_and_update (st : TrainState)
    (inp targ : list (list nat)) (enc_hidden : list (list R))
    (start : nat) (l : loss_value) :
  word_index !! Text.lit "<start>" = Some start ->
  (2 <= shape_1 targ)%nat ->
  teacher_forced_loss start inp targ enc_hidden (encoder_variables st)
    (decoder_variables st) = Returns l ->
  let n := length (encoder_variables st) in
  let variables := encoder_variables st ++ decoder_variables st in
  let accumulated := teacher_forced_loss start inp targ enc_hidden in
  let gradients :=
    gradient (fun v => accumulated (take n v) (drop n v)) variables in
  let updated :=
    apply_gradients (optimizer_state st) (combine gradients variables) in
  exists x : number,
    l = Scalar x
    /\ train_step st inp targ enc_hidden
       = Returns (ndiv x (shape_1 targ),
                  {| encoder_variables := take n (snd updated);
                     decoder_variables := drop n (snd updated);
                     optimizer_state := fst updated |}).
Proof.
  intros Hstart HT Hloss n variables accumulated gradients updated.
  assert (Hx : exists x, l = Scalar x).
  { revert Hloss. unfold teacher_forced_loss.
    destruct (encoder _ inp enc_hidden) as [enc_output enc_hidden'].
    destruct (shape_1 targ - 1)%nat as [|k] eqn:Hk; [lia|].
    cbn [seq List.map]. apply accumulate_scalar. }
  destruct Hx as [x ->]. exists x. split; [reflexivity|].
  rewrite <- forward_loss_teacher_forced in Hloss.
  rewrite (train_step_after_loop st inp targ enc_hidden start x Hstart Hloss).
  unfold updated, gradients, accumulated, variables, n.
  replace (fun v => forward_loss start inp targ enc_hidden
                      (take (length (encoder_variables st)) v)
                      (drop (length (encoder_variables st)) v))
    with (fun v => teacher_forced_loss start inp targ enc_hidden
                     (take (length (encoder_variables st)) v)
                     (drop (length (encoder_variables st)) v)).
  - reflexivity.
  - apply functional_extensionality. intros v.
    symmetry. apply forward_loss_teacher_forced.
Qed.

(** *** The first column of the targets *)

Lemma teacher_input_agree (start : nat) (targ targ' : list (list nat))
    (t : nat) :
  (forall k, (1 <= k)%nat -> column k targ = column k targ') ->
  (1 <= t)%nat ->
  teacher_input start targ t = teacher_input start targ' t.
Proof.
  intros Hcols Ht. unfold teacher_input.
  destruct (Nat.eqb_spec t 1) as [_|Hne]; [reflexivity|].
  now rewrite Hcols by lia.
Qed.

Lemma hidden_after_agree (dec_vars : list value) (start : nat)
    (targ targ' : list (list nat)) (enc_output : list (list (list R)))
    (enc_hidden : list (list R)) (k : nat) :
  (forall j, (1 <= j)%nat -> column j targ = column j targ') ->
  hidden_after dec_vars start targ enc_output enc_hidden k
  = hidden_after dec_vars start targ' enc_output enc_hidden k.
Proof.
  intros Hcols. induction k as [|k IH]; [reflexivity|].
  cbn [hidden_after]. rewrite IH.
  now rewrite (teacher_input_agree start targ targ' (S k) Hcols) by lia.
Qed.

(** X7.  [train_step] never reads the first column of the targets: two
    batches of targets with the same number of columns that agree from
    the second column on give the same accumulated loss, for all values
    of the variables. *)
Theorem forward_loss_ignores_first_column (start : nat)
    (inp targ targ' : list (list nat)) (enc_hidden : list (list R))
    (enc_vars dec_vars : list value) :
  shape_1 targ = shape_1 targ' ->
  (forall t, (1 <= t)%nat -> column t targ = column t targ') ->
  forward_loss start inp targ enc_hidden enc_vars dec_vars
  = forward_loss start inp targ' enc_hidden enc_vars dec_vars.
Proof.
  intros Hshape Hcols. rewrite !forward_loss_teacher_forced.
  unfold teacher_forced_loss.
  destruct (encoder enc_vars inp enc_hidden) as [enc_output enc_hidden'].
  rewrite Hshape. f_equal.
  apply List.map_ext_in. intros t Ht. apply List.in_seq in Ht.
  unfold predictions_at.
  rewrite (hidden_after_agree dec_vars start targ targ' _ _ (t - 1) Hcols).
  rewrite (teacher_input_agree start targ targ' t Hcols) by lia.
  now rewrite Hcols by lia.
Qed.

End TrainStep.

(** A small instance: the encoder returns no outputs and keeps the
    state, the decoder gives six token ids the same score and keeps the
    state, gradients are the values themselves and the optimizer
    subtracts them. *)
Definition idle_encoder (vars : list R) (inp : list (list nat))
    (hidden : list (list R)) : list (list (list R)) * list (list R) :=
  ([], hidden).
Definition idle_decoder (vars : list R) (x : list (list nat))
    (hidden : list (list R)) (enc_output : list (list (list R)))
  : list (list number) * list (list R) * list (list (list R)) :=
  (repeat (repeat (Real 0) 6) BATCH_SIZE, hidden, []).
Definition identity_gradient (f : list R -> outcome loss_value)
    (v : list R) : list R := v.
Definition subtract_gradients (o : unit) (gv : list (R * R))
  : unit * list R :=
  (o, List.map (fun '(g, v) => v - g) gv).
Definition start_only_index : gmap (list N) nat :=
  {[ Text.lit "<start>" := 1%nat ]}.
Definition four_token_targets : list (list nat) :=
  repeat [1%nat; 5%nat; 2%nat; 0%nat] BATCH_SIZE.
Definition two_variables : TrainState R unit :=
  {| encoder_variables := [1];
     decoder_variables := [2];
     optimizer_state := tt |}.

(** C2 at a batch of four-token targets: the forward pass returns a
    loss, and [train_step] returns it divided by four. *)
Lemma train_step_teacher_forcing_witness :
  exists (l : number) (st' : TrainState R unit),
    forward_loss R idle_encoder idle_decoder 1 [] four_token_targets []
      [1] [2] = Returns (Scalar l)
    /\ train_step R R unit idle_encoder idle_decoder identity_gradient
         subtract_gradients start_only_index two_variables []
         four_token_targets []
       = Returns (ndiv l 4, st').
Proof.
  assert (H : exists l,
    forward_loss R idle_encoder idle_decoder 1 [] four_token_targets []
      [1] [2] = Returns (Scalar l)) by (eexists; reflexivity).
  destruct H as [l Hl]. exists l.
  destruct (proj2 (train_step_teacher_forcing R R unit idle_encoder
                     idle_decoder identity_gradient subtract_gradients
                     start_only_index two_variables [] four_token_targets [])
              1%nat l eq_refl Hl) as [st' Hst'].
  exists st'. split; [exact Hl|exact Hst'].
Defined.

(** C4, as stated, fails on targets of a single column: the loop runs
    no step, [loss] is still the integer [0] and [tape.gradient] rejects
    it.  It also fails when a target id has no score: the loss object
    raises and nothing is returned. *)
Lemma train_step_single_column_raises :
  train_step R R unit idle_encoder idle_decoder identity_gradient
    subtract_gradients start_only_index two_variables []
    (repeat [1%nat] BATCH_SIZE) []
  = Raises TypeError
  /\ train_step R R unit idle_encoder idle_decoder identity_gradient
       subtract_gradients start_only_index two_variables []
       (repeat [1%nat; 9%nat] BATCH_SIZE) []
     = Raises InvalidArgumentError.
Proof. split; reflexivity. Qed.

(** C4, amended, at a batch of four-token targets. *)
Lemma train_step_loss_and_update_witness :
  exists x : number,
    train_step R R unit idle_encoder idle_decoder identity_gradient
      subtract_gradients start_only_index two_variables []
      four_token_targets []
    = Returns (ndiv x 4,
               {| encoder_variables := [1 - 1];
                  decoder_variables := [2 - 2];
                  optimizer_state := tt |}).
Proof.
  edestruct (train_step_loss_and_update R R unit idle_encoder idle_decoder
               identity_gradient subtract_gradients start_only_index
               two_variables [] four_token_targets [] 1)
    as (x & _ & H); [reflexivity|cbv; lia|reflexivity|].
  exists x. exact H.
Defined.

(** Targets that differ from [four_token_targets] in the first column
    only. *)
Definition other_first_column : list (list nat) :=
  repeat [7%nat; 5%nat; 2%nat; 0%nat] BATCH_SIZE.

Lemma column_repeat (t : nat) (row : list nat) (n : nat) :
  column t (repeat row n) = repeat (nth t row 0%nat) n.
Proof.
  unfold column. induction n as [|n IH]; simpl; [reflexivity|].
  now rewrite IH.
Qed.

(** The statement at two batches of four-token targets. *)
Lemma forward_loss_ignores_first_column_witness :
  forward_loss R idle_encoder idle_decoder 1 [] four_token_targets [] [1] [2]
  = forward_loss R idle_encoder idle_decoder 1 [] other_first_column [] [1] [2].
Proof.
  apply (forward_loss_ignores_first_column R idle_encoder idle_decoder 1 []
           four_token_targets other_first_column [] [1] [2]).
  - reflexivity.
  - intros t Ht. unfold four_token_targets, other_first_column.
    rewrite !column_repeat. destruct t as [|t]; [lia|reflexivity].
Defined.

End Training.

(** ** Translation: [evaluate] *)

Module Translate.

Import Py Tensor.
Local Open Scope R_scope.

(** The two dictionaries of a fitted [Tokenizer]. *)
Record Tokenizer : Type := {
  word_index : gmap (list N) nat;
  index_word : gmap nat (list N)
}.

(** [[d[w] for w in words]]: the lookups are made from the left and the
    first missing word raises. *)
Fixpoint getitems (d : gmap (list N) nat) (words : list (list N))
  : outcome (list nat) :=
  match words with
  | [] => Returns []
  | w :: words' =>
      bind (getitem_str d w) (fun i =>
      bind (getitems d words') (fun rest => Returns (i :: rest)))
  end.

(** [pad_sequences([s], maxlen=maxlen, padding='post')] of the Keras
    library, one row: the sequence is cut to [s[-maxlen:]], its last
    [maxlen] entries (the default truncation; [s[-0:]] is all of [s]),
    and written at the start of a row of [maxlen] zeros.  A cut sequence
    that does not fit into the row, which happens at [maxlen = 0] only,
    is a [ValueError]. *)
Definition pad_post (maxlen : nat) (s : list nat) : outcome (list nat) :=
  let trunc := if Nat.eqb maxlen 0 then s else drop (length s - maxlen) s in
  if (length trunc <=? maxlen)%nat
  then Returns (trunc ++ repeat 0%nat (maxlen - length trunc))
  else Raises ValueError.

(** [tf.argmax] of a vector: the first index of a greatest entry. *)
Fixpoint argmax_from (best_i : nat) (best : R) (i : nat) (l : list R)
  : nat :=
  match l with
  | [] => best_i
  | x :: l' =>
      if Rlt_dec best x then argmax_from i x (S i) l'
      else argmax_from best_i best (S i) l'
  end.

Definition argmax (l : list R) : nat :=
  match l with
  | [] => 0%nat
  | x :: l' => argmax_from 0 x 1 l'
  end.

(** [tf.reshape(x, (-1, ))] on a tensor of rank three. *)
Definition flatten (x : list (list (list R))) : list R :=
  List.concat (List.concat x).

(** The first word without an entry in a dictionary. *)
Fixpoint first_missing (d : gmap (list N) nat) (words : list (list N))
  : option (list N) :=
  match words with
  | [] => None
  | w :: words' =>
      match d !! w with
      | None => Some w
      | Some _ => first_missing d words'
      end
  end.

Lemma getitems_raises (d : gmap (list N) nat) (words : list (list N))
    (w : list N) :
  first_missing d words = Some w ->
  getitems d words = Raises (KeyError (StrKey w)).
Proof.
  induction words as [|v words IH]; simpl; [discriminate|].
  unfold getitem_str. destruct (d !! v) eqn:Hv; simpl.
  - intros H. now rewrite (IH H).
  - now intros [= ->].
Qed.

Lemma getitems_returns (d : gmap (list N) nat) (words : list (list N)) :
  Forall (fun w => is_Some (d !! w)) words ->
  getitems d words
  = Returns (List.map (fun w => default 0%nat (d !! w)) words).
Proof.
  induction 1 as [|w words [i Hw] _ IH]; simpl; [reflexivity|].
  unfold getitem_str. rewrite Hw. simpl. now rewrite IH.
Qed.

(** A sequence that fits is followed by zeros. *)
Lemma pad_post_fits (maxlen : nat) (s : list nat) :
  (length s <= maxlen)%nat ->
  pad_post maxlen s = Returns (s ++ repeat 0%nat (maxlen - length s)).
Proof.
  intros Hle. unfold pad_post.
  replace (length s - maxlen)%nat with 0%nat by lia.
  change (drop 0 s) with s.
  destruct (Nat.eqb maxlen 0);
    (destruct (Nat.leb_spec (length s) maxlen); [reflexivity|lia]).
Qed.

(** A row of at least one entry holds the last entries of the sequence
    and then zeros. *)
Lemma pad_post_positive (maxlen : nat) (s : list nat) :
  (0 < maxlen)%nat ->
  pad_post maxlen s
  = Returns (drop (length s - maxlen) s
             ++ repeat 0%nat (maxlen - length (drop (length s - maxlen) s))).
Proof.
  intros Hpos. unfold pad_post.
  destruct (Nat.eqb_spec maxlen 0) as [|_]; [lia|].
  destruct (Nat.leb_spec (length (drop (length s - maxlen) s)) maxlen)
    as [_|Hgt]; [reflexivity|].
  rewrite length_drop in Hgt. lia.
Qed.

Lemma first_missing_exists (d : gmap (list N) nat) (words : list (list N)) :
  (exists w, In w words /\ d !! w = None) ->
  exists w, first_missing d words = Some w /\ In w words /\ d !! w = None.
Proof.
  induction words as [|v words IH]; intros (w & Hin & Hw); [destruct Hin|].
  simpl. destruct (d !! v) eqn:Hv.
  - destruct Hin as [->|Hin]; [congruence|].
    destruct IH as (u & Hu & Hin' & Hnone); [now exists w|].
    exists u. auto.
  - exists v. auto.
Qed.

Section Evaluate.

(** The Unicode services of the preprocessing. *)
Variable lower : list N -> list N.
Variable normalize : string -> list N -> list N.
Variable category : N -> string.

(** The globals of the notebook that [evaluate] reads. *)
Variables max_length_targ max_length_inp units : nat.
Variables inp_lang targ_lang : Tokenizer.
Variable encoder :
  list (list nat) -> list (list R) -> list (list (list R)) * list (list R).
Variable decoder :
  list (list nat) -> list (list R) -> list (list (list R))
  -> list (list R) * list (list R) * list (list (list R)).

(** The loop of [evaluate] over the remaining steps. *)
Fixpoint decode_loop (enc_out : list (list (list R))) (steps : list nat)
    (result : list N) (attention_plot : list (list R))
    (dec_hidden : list (list R)) (dec_input : list (list nat))
  : outcome (list N * list (list R)) :=
  match steps with
  | [] => Returns (result, attention_plot)
  | t :: steps' =>
      let '(predictions, dec_hidden, attention_weights) :=
        decoder dec_input dec_hidden enc_out in
      let attention_weights := flatten attention_weights in
      let attention_plot := <[t := attention_weights]> attention_plot in
      let predicted_id := argmax (hd [] predictions) in
      bind (getitem_int (index_word targ_lang) predicted_id) (fun word =>
      let result := result ++ word ++ [32%N] in
      if decide (word = Text.lit "<end>")
      then Returns (result, attention_plot)
      else decode_loop enc_out steps' result attention_plot dec_hidden
             [[predicted_id]])
  end.

Definition evaluate (sentence : list N)
  : outcome (list N * list N * list (list R)) :=
  let attention_plot := repeat (repeat 0 max_length_inp) max_length_targ in
  let sentence := Text.preprocess_sentence lower normalize category sentence in
  bind (getitems (word_index inp_lang) (Text.split_space sentence))
    (fun inputs =>
  bind (pad_post max_length_inp inputs) (fun row =>
  let inputs := [row] in
  let result := [] in
  let hidden := repeat (repeat 0 units) 1 in
  let '(enc_out, enc_hidden) := encoder inputs hidden in
  let dec_hidden := enc_hidden in
  bind (getitem_str (word_index targ_lang) (Text.lit "<start>"))
    (fun start =>
  let dec_input := [[start]] in
  bind (decode_loop enc_out (seq 0 max_length_targ) result attention_plot
          dec_hidden dec_input)
    (fun '(result, attention_plot) =>
  Returns (result, sentence, attention_plot))))).

(** *** Greedy decoding *)

(** The word of a token id. *)
Definition word_of (id : nat) : list N :=
  default [] (index_word targ_lang !! id).

(** Greedy decoding with at most [fuel] steps: every step predicts the
    token of greatest score and records its attention weights; the
    predicted token is the next input; decoding stops after the token
    ['<end>']. *)
Fixpoint greedy (enc_out : list (list (list R))) (fuel : nat)
    (dec_hidden : list (list R)) (dec_input : list (list nat))
  : list (nat * list R) :=
  match fuel with
  | O => []
  | S fuel' =>
      let '(predictions, dec_hidden', attention_weights) :=
        decoder dec_input dec_hidden enc_out in
      let predicted_id := argmax (hd [] predictions) in
      (predicted_id, flatten attention_weights)
      :: (if decide (word_of predicted_id = Text.lit "<end>") then []
          else greedy enc_out fuel' dec_hidden' [[predicted_id]])
  end.

(** The token ids given to the encoder when [max_length_inp] is not
    zero: the last [max_length_inp] ids of the words, followed by zeros
    up to this length. *)
Definition encoded (sentence : list N) : list (list nat) :=
  let ids :=
    List.map (fun w => default 0%nat (word_index inp_lang !! w))
      (Text.split_space
         (Text.preprocess_sentence lower normalize category sentence)) in
  let trunc := drop (length ids - max_length_inp) ids in
  [trunc ++ repeat 0%nat (max_length_inp - length trunc)].

(** The steps of the greedy decoding of a sentence. *)
Definition greedy_steps (sentence : list N) : list (nat * list R) :=
  let '(enc_out, enc_hidden) :=
    encoder (encoded sentence) (repeat (repeat 0 units) 1) in
  greedy enc_out max_length_targ enc_hidden
    [[default 0%nat (word_index targ_lang !! Text.lit "<start>")]].

(** The text of decoded steps: every word is followed by a space. *)
Definition text_of (steps : list (nat * list R)) : list N :=
  flat_map (fun s => word_of (fst s) ++ [32%N]) steps.

Lemma greedy_length (enc_out : list (list (list R))) (fuel : nat)
    (h : list (list R)) (x : list (list nat)) :
  (length (greedy enc_out fuel h x) <= fuel)%nat.
Proof.
  revert h x. induction fuel as [|fuel IH]; intros h x; simpl; [lia|].
  destruct (decoder x h enc_out) as [[p h'] aw].
  destruct (decide _); simpl; [lia|]. specialize (IH h' [[argmax (hd [] p)]]).
  lia.
Qed.

(** Only the last decoded token can be ['<end>']. *)
Lemma greedy_end_last (enc_out : list (list (list R))) (fuel : nat)
    (h : list (list R)) (x : list (list nat)) (k : nat) (s : nat * list R) :
  greedy enc_out fuel h x !! k = Some s ->
  (S k < length (greedy enc_out fuel h x))%nat ->
  word_of (fst s) <> Text.lit "<end>".
Proof.
  revert h x k. induction fuel as [|fuel IH]; intros h x k; simpl;
    [discriminate|].
  destruct (decoder x h enc_out) as [[p h'] aw].
  destruct (decide _) as [Hend|Hne]; simpl.
  - intros _ Hlt. lia.
  - destruct k as [|k]; simpl.
    + now intros [= <-] _.
    + intros Hs Hlt. apply (IH h' _ k Hs). lia.
Qed.

(** Decoding that stops before the last step stopped at ['<end>']. *)
Lemma greedy_short_end (enc_out : list (list (list R))) (fuel : nat)
    (h : list (list R)) (x : list (list nat)) :
  (length (greedy enc_out fuel h x) < fuel)%nat ->
  exists s, List.last (List.map Some (greedy enc_out fuel h x)) None = Some s
            /\ word_of (fst s) = Text.lit "<end>".
Proof.
  revert h x. induction fuel as [|fuel IH]; intros h x; simpl; [lia|].
  destruct (decoder x h enc_out) as [[p h'] aw].
  destruct (decide _) as [Hend|Hne]; simpl.
  - intros _. eexists. split; [reflexivity|exact Hend].
  - intros Hlt. destruct (IH h' [[argmax (hd [] p)]]) as (s & Hs & Hw); [lia|].
    exists s. split; [|exact Hw].
    destruct (greedy enc_out fuel h' [[argmax (hd [] p)]]); [discriminate Hs|].
    exact Hs.
Qed.

(** The loop of [evaluate] computes the greedy decoding, as long as
    every token predicted on the way has a word. *)
Lemma decode_loop_greedy (enc_out : list (list (list R))) (zero : list R) :
  forall (n t : nat) (result : list N) (rows : list (list R))
         (h : list (list R)) (x : list (list nat)),
  length rows = t ->
  Forall (fun s => is_Some (index_word targ_lang !! fst s))
    (greedy enc_out n h x) ->
  decode_loop enc_out (seq t n) result (rows ++ repeat zero n) h x
  = Returns
      (result ++ text_of (greedy enc_out n h x),
       rows ++ List.map snd (greedy enc_out n h x)
       ++ repeat zero (n - length (greedy enc_out n h x))).
Proof.
  induction n as [|n IH]; intros t result rows h x Hrows Hword.
  - simpl. now rewrite !app_nil_r.
  - simpl in *.
    destruct (decoder x h enc_out) as [[p h'] aw].
    pose proof (List.Forall_inv_tail Hword) as Hrest.
    destruct (List.Forall_inv Hword) as [word Hw0]. cbn [fst] in Hw0.
    unfold getitem_int. rewrite Hw0. simpl bind.
    assert (Hw : word_of (argmax (hd [] p)) = word)
      by (unfold word_of; now rewrite Hw0).
    rewrite Hw in *.
    assert (Hins : <[t := flatten aw]> (rows ++ zero :: repeat zero n)
                   = (rows ++ [flatten aw]) ++ repeat zero n).
    { rewrite insert_app_r_alt by lia.
      replace (t - length rows)%nat with 0%nat by lia.
      simpl. now rewrite <- app_assoc. }
    rewrite Hins.
    destruct (decide (word = Text.lit "<end>")) as [Hend|Hne].
    + simpl. unfold text_of. simpl. rewrite Hw, app_nil_r, Nat.sub_0_r.
      now rewrite <- !app_assoc.
    + rewrite (IH (S t)) by
        (try exact Hrest; rewrite length_app; simpl; lia).
      unfold text_of. simpl. rewrite Hw.
      now rewrite <- !app_assoc.
Qed.

(** A sentence with a word outside the input vocabulary makes
    [evaluate] raise the [KeyError] of its first such word. *)
Lemma evaluate_first_missing (sentence w : list N) :
  first_missing (word_index inp_lang)
    (Text.split_space
       (Text.preprocess_sentence lower normalize category sentence))
  = Some w ->
  evaluate sentence = Raises (KeyError (StrKey w)).
Proof.
  intros H. unfold evaluate. now rewrite (getitems_raises _ _ _ H).
Qed.

(** What [evaluate] returns when every lookup succeeds. *)
Lemma evaluate_returns_steps (sentence : list N) :
  Forall (fun w => is_Some (word_index inp_lang !! w))
    (Text.split_space
       (Text.preprocess_sentence lower normalize category sentence)) ->
  is_Some (word_index targ_lang !! Text.lit "<start>") ->
  (0 < max_length_inp)%nat ->
  Forall (fun s => is_Some (index_word targ_lang !! fst s))
    (greedy_steps sentence) ->
  evaluate sentence
  = Returns
      (text_of (greedy_steps sentence),
       Text.preprocess_sentence lower normalize category sentence,
       List.map snd (greedy_steps sentence)
       ++ repeat (repeat 0 max_length_inp)
            (max_length_targ - length (greedy_steps sentence))).
Proof.
  intros Hwords [start Hstart] Hpos Hpred.
  unfold evaluate.
  rewrite (getitems_returns _ _ Hwords), bind_returns.
  rewrite (pad_post_positive _ _ Hpos), bind_returns. cbv zeta.
  unfold greedy_steps, encoded in *. cbv zeta in Hpred.
  destruct (encoder _ (repeat (repeat 0 units) 1)) as [enc_out enc_hidden].
  rewrite (getitem_str_some _ _ _ Hstart), bind_returns.
  rewrite Hstart in *.
  change (default 0%nat (Some start)) with start in *.
  change (repeat (repeat 0 max_length_inp) max_length_targ)
    with ([] ++ repeat (repeat 0 max_length_inp) max_length_targ).
  rewrite (decode_loop_greedy enc_out (repeat 0 max_length_inp))
    by (try exact Hpred; reflexivity).
  now rewrite bind_returns.
Qed.

(** C7, amended.  For a sentence whose preprocessed words all occur in
    the input vocabulary, with ['<start>'] in the target vocabulary and
    [max_length_inp] not zero, and as long as every token id predicted
    in the run has an entry in [targ_lang.index_word], [evaluate]
    returns: its loop makes the steps of the greedy decoding, at most
    [max_length_targ] of them, each fed with the token predicted by the
    previous one, and stops after the first ['<end>']; the result is the
    decoded text, the preprocessed sentence and the attention plot,
    whose first rows are the attention weights of the steps and whose
    other rows are zero. *)
Theorem evaluate_greedy_returns (sentence : list N) :
  Forall (fun w => is_Some (word_index inp_lang !! w))
    (Text.split_space
       (Text.preprocess_sentence lower normalize category sentence)) ->
  is_Some (word_index targ_lang !! Text.lit "<start>") ->
  (0 < max_length_inp)%nat ->
  Forall (fun s => is_Some (index_word targ_lang !! fst s))
    (greedy_steps sentence) ->
  evaluate sentence
  = Returns
      (text_of (greedy_steps sentence),
       Text.preprocess_sentence lower normalize category sentence,
       List.map snd (greedy_steps sentence)
       ++ repeat (repeat 0 max_length_inp)
            (max_length_targ - length (greedy_steps sentence)))
  /\ (length (greedy_steps sentence) <= max_length_targ)%nat
  /\ (forall k s, greedy_steps sentence !! k = Some s ->
                  (S k < length (greedy_steps sentence))%nat ->
                  word_of (fst s) <> Text.lit "<end>")
  /\ ((length (greedy_steps sentence) < max_length_targ)%nat ->
      exists s,
        List.last (List.map Some (greedy_steps sentence)) None = Some s
        /\ word_of (fst s) = Text.lit "<end>").
Proof.
  intros Hwords Hstart Hpos Hpred.
  split; [now apply evaluate_returns_steps|].
  unfold greedy_steps.
  destruct (encoder _ (repeat (repeat 0 units) 1)) as [enc_out enc_hidden].
  repeat split.
  - apply greedy_length.
  - intros k s. apply greedy_end_last.
  - apply greedy_short_end.
Qed.

(** *** Further properties of [evaluate] *)

(** The loop keeps the number of rows of the attention plot. *)
Lemma decode_loop_plot_length (enc_out : list (list (list R)))
    (steps : list nat) :
  forall (result : list N) (plot : list (list R)) (h : list (list R))
         (x : list (list nat)) (result' : list N) (plot' : list (list R)),
  decode_loop enc_out steps result plot h x = Returns (result', plot') ->
  length plot' = length plot.
Proof.
  induction steps as [|t steps IH]; intros result plot h x result' plot';
    simpl.
  - now intros [= _ <-].
  - destruct (decoder x h enc_out) as [[p h'] aw].
    unfold getitem_int.
    destruct (index_word targ_lang !! argmax (hd [] p)) as [word|];
      simpl; [|discriminate].
    destruct (decide (word = Text.lit "<end>")).
    + intros [= _ <-]. apply length_insert.
    + intros H. apply IH in H. rewrite H. apply length_insert.
Qed.

(** X8.  Whenever [evaluate] returns, the sentence it returns is the
    preprocessed input and the attention plot has kept its
    [max_length_targ] rows, however many steps were decoded. *)
Theorem evaluate_returns_full_plot (sentence result sentence' : list N)
    (plot : list (list R)) :
  evaluate sentence = Returns (result, sentence', plot) ->
  sentence' = Text.preprocess_sentence lower normalize category sentence
  /\ length plot = max_length_targ.
Proof.
  unfold evaluate.
  destruct (getitems _ _) as [inputs|e]; [|discriminate].
  rewrite bind_returns.
  destruct (pad_post _ _) as [row|e]; [|discriminate].
  rewrite bind_returns. cbv zeta.
  destruct (encoder _ _) as [enc_out enc_hidden].
  destruct (getitem_str _ _) as [start|e]; [|discriminate].
  rewrite bind_returns.
  destruct (decode_loop _ _ _ _ _ _) as [[r p]|e] eqn:Hloop; [|discriminate].
  rewrite bind_returns. intros [= <- <- <-]. split; [reflexivity|].
  apply decode_loop_plot_length in Hloop. rewrite Hloop.
  apply repeat_length.
Qed.

(** [translate]: the two lines it prints and the arguments with which
    it calls [plot_attention] (the drawing itself is not modelled). *)
Definition translate (sentence : list N)
  : outcome (list (list N)
             * (list (list R) * list (list N) * list (list N))) :=
  bind (evaluate sentence) (fun '(result, sentence, attention_plot) =>
  let printed :=
    [Text.lit "Input: " ++ sentence;
     Text.lit "Predicted translation: " ++ result] in
  let attention_plot :=
    List.map (take (length (Text.split_space sentence)))
      (take (length (Text.split_space result)) attention_plot) in
  Returns (printed,
           (attention_plot, Text.split_space sentence,
            Text.split_space result))).

(** The words of a decoded text: every decoded word, and the empty word
    after the last space. *)
Lemma split_space_text_of (steps : list (nat * list R)) :
  (forall id w, index_word targ_lang !! id = Some w -> ~ In 32%N w) ->
  Text.split_space (text_of steps)
  = List.map (fun s => word_of (fst s)) steps ++ [[]].
Proof.
  intros Hwords. induction steps as [|s steps IH]; [reflexivity|].
  unfold text_of in *. cbn [flat_map]. rewrite <- app_assoc.
  change ([32%N] ++ flat_map (fun s => word_of (fst s) ++ [32%N]) steps)
    with (32%N :: flat_map (fun s => word_of (fst s) ++ [32%N]) steps).
  assert (Hword : ~ In 32%N (word_of (fst s))).
  { unfold word_of.
    destruct (index_word targ_lang !! fst s) as [w|] eqn:Hw; simpl.
    - now apply (Hwords (fst s)).
    - intros []. }
  now rewrite Text.split_space_app, IH, (Text.split_space_word _ Hword).
Qed.

(** X9.  When every lookup of [evaluate] succeeds (the words of the
    sentence are in the input vocabulary, ['<start>'] is in the target
    vocabulary, every token id predicted in the run has a word), with
    [max_length_inp] not zero and no space in a word of the target
    vocabulary, [translate] labels the rows of the plot with the decoded
    words followed by one empty label (the result ends with a space),
    and the plot it draws has one row more than there were decode steps,
    unless all [max_length_targ] steps were made. *)
Theorem translate_plots_one_more_row (sentence : list N) :
  Forall (fun w => is_Some (word_index inp_lang !! w))
    (Text.split_space
       (Text.preprocess_sentence lower normalize category sentence)) ->
  is_Some (word_index targ_lang !! Text.lit "<start>") ->
  (0 < max_length_inp)%nat ->
  Forall (fun s => is_Some (index_word targ_lang !! fst s))
    (greedy_steps sentence) ->
  (forall id w, index_word targ_lang !! id = Some w -> ~ In 32%N w) ->
  exists printed plot,
    translate sentence
    = Returns
        (printed,
         (plot,
          Text.split_space
            (Text.preprocess_sentence lower normalize category sentence),
          List.map (fun s => word_of (fst s)) (greedy_steps sentence)
          ++ [[]]))
    /\ length plot
       = Nat.min (S (length (greedy_steps sentence))) max_length_targ.
Proof.
  intros Hwords Hstart Hpos Hpred Hspace.
  unfold translate.
  rewrite (evaluate_returns_steps sentence Hwords Hstart Hpos Hpred),
    bind_returns.
  cbv zeta. rewrite (split_space_text_of _ Hspace).
  eexists. eexists. split; [reflexivity|].
  rewrite List.length_map, length_take, !length_app, !List.length_map,
    repeat_length. simpl length.
  assert (Hle : (length (greedy_steps sentence) <= max_length_targ)%nat).
  { unfold greedy_steps. destruct (encoder _ _). apply greedy_length. }
  lia.
Qed.

(** X10.  A sentence whose cleaned text is empty (no letter and none of
    the listed punctuation marks) splits into ['<start>'], the empty
    word and ['<end>']; with ['<start>'] in the input vocabulary and
    without the empty word there, [evaluate] raises the [KeyError] of the
    empty word. *)
Theorem evaluate_empty_sentence_raises (sentence : list N) :
  Text.clean_sentence lower normalize category sentence = [] ->
  is_Some (word_index inp_lang !! Text.lit "<start>") ->
  word_index inp_lang !! [] = None ->
  evaluate sentence = Raises (KeyError (StrKey [])).
Proof.
  intros Hempty [i Hstart] Hnone.
  apply evaluate_first_missing.
  destruct (Text.preprocess_sentence_words lower normalize category sentence)
    as (_ & _ & _ & Hwords).
  rewrite (Hwords Hempty). simpl.
  now rewrite Hstart, Hnone.
Qed.

End Evaluate.

(** C10.  If, after preprocessing, some word of the sentence has no
    entry in [inp_lang.word_index], then [evaluate] raises a [KeyError]
    for such a word (the first one), and it does so whatever the encoder
    and the decoder are: neither is consulted. *)
Theorem evaluate_unknown_word_raises
    (lower : list N -> list N) (normalize : string -> list N -> list N)
    (category : N -> string) (max_length_targ max_length_inp units : nat)
    (inp_lang targ_lang : Tokenizer) (sentence : list N) :
  (exists w,
     In w (Text.split_space
             (Text.preprocess_sentence lower normalize category sentence))
     /\ word_index inp_lang !! w = None) ->
  exists w,
    In w (Text.split_space
            (Text.preprocess_sentence lower normalize category sentence))
    /\ word_index inp_lang !! w = None
    /\ forall encoder decoder,
         evaluate lower normalize category max_length_targ max_length_inp
           units inp_lang targ_lang encoder decoder sentence
         = Raises (KeyError (StrKey w)).
Proof.
  intros H. apply first_missing_exists in H.
  destruct H as (w & Hfirst & Hin & Hnone).
  exists w. repeat split; try assumption.
  intros encoder decoder. now apply evaluate_first_missing.
Qed.

(** A vocabulary of three words and the sentence ["yo"]. *)
Definition three_words : Tokenizer :=
  {| word_index :=
       {[ Text.lit "<start>" := 1%nat; Text.lit "<end>" := 2%nat;
          Text.lit "hi" := 3%nat ]};
     index_word :=
       {[ 1%nat := Text.lit "<start>"; 2%nat := Text.lit "<end>";
          3%nat := Text.lit "hi" ]} |}.

(** C10 at the sentence ["yo"], whose word is not in the vocabulary. *)
Lemma evaluate_unknown_word_raises_witness :
  exists w,
    In w (Text.split_space
            (Text.preprocess_sentence Text.ascii_lower Text.ascii_normalize
               Text.ascii_category (Text.lit "yo")))
    /\ word_index three_words !! w = None
    /\ forall encoder decoder,
         evaluate Text.ascii_lower Text.ascii_normalize Text.ascii_category
           2 3 1 three_words three_words encoder decoder (Text.lit "yo")
         = Raises (KeyError (StrKey w)).
Proof.
  apply (evaluate_unknown_word_raises Text.ascii_lower Text.ascii_normalize
           Text.ascii_category 2 3 1 three_words three_words (Text.lit "yo")).
  exists (Text.lit "yo"). split.
  - vm_compute. right. left. reflexivity.
  - reflexivity.
Defined.

(** An encoder without outputs, and two decoders with constant scores:
    the first always predicts token 2, the second always token 0, the
    padding id. *)
Definition silent_encoder (inputs : list (list nat)) (hidden : list (list R))
  : list (list (list R)) * list (list R) :=
  ([], hidden).
Definition decoder_end (x : list (list nat)) (hidden : list (list R))
    (enc_out : list (list (list R)))
  : list (list R) * list (list R) * list (list (list R)) :=
  ([[0; 0; 1; 0]], hidden, [[[1]; [0]; [0]]]).
Definition decoder_pad (x : list (list nat)) (hidden : list (list R))
    (enc_out : list (list (list R)))
  : list (list R) * list (list R) * list (list (list R)) :=
  ([[1; 0; 0; 0]], hidden, [[[1]; [0]; [0]]]).

Lemma argmax_end : argmax [0; 0; 1; 0] = 2%nat.
Proof.
  unfold argmax. simpl.
  repeat (destruct (Rlt_dec _ _); try lra; simpl).
  reflexivity.
Qed.

Lemma argmax_pad : argmax [1; 0; 0; 0] = 0%nat.
Proof.
  unfold argmax. simpl.
  repeat (destruct (Rlt_dec _ _); try lra; simpl).
  reflexivity.
Qed.

Lemma words_hi_known :
  Forall (fun w => is_Some (word_index three_words !! w))
    (Text.split_space
       (Text.preprocess_sentence Text.ascii_lower Text.ascii_normalize
          Text.ascii_category (Text.lit "hi"))).
Proof. vm_compute. repeat econstructor. Qed.

(** The greedy decoding of ["hi"] with the decoder that predicts
    ['<end>']: one step. *)
Lemma greedy_steps_hi :
  greedy_steps Text.ascii_lower Text.ascii_normalize Text.ascii_category
    2 3 1 three_words three_words silent_encoder decoder_end (Text.lit "hi")
  = [(2%nat, [1; 0; 0])].
Proof.
  unfold greedy_steps, silent_encoder. cbn [greedy]. unfold decoder_end.
  cbv beta iota zeta. change (hd [] [[0; 0; 1; 0]]) with [0; 0; 1; 0].
  rewrite argmax_end.
  destruct (decide _) as [_|Hne]; [reflexivity|].
  exfalso. apply Hne. reflexivity.
Qed.

Lemma greedy_steps_hi_have_words :
  Forall (fun s => is_Some (index_word three_words !! fst s))
    (greedy_steps Text.ascii_lower Text.ascii_normalize Text.ascii_category
       2 3 1 three_words three_words silent_encoder decoder_end
       (Text.lit "hi")).
Proof.
  rewrite greedy_steps_hi. apply List.Forall_cons; [|apply List.Forall_nil].
  eexists. reflexivity.
Qed.

(** C7, amended, at the sentence ["hi"] and a decoder that predicts
    ['<end>']. *)
Lemma evaluate_greedy_returns_witness :
  evaluate Text.ascii_lower Text.ascii_normalize Text.ascii_category 2 3 1
    three_words three_words silent_encoder decoder_end (Text.lit "hi")
  = Returns
      (text_of three_words
         (greedy_steps Text.ascii_lower Text.ascii_normalize
            Text.ascii_category 2 3 1 three_words three_words silent_encoder decoder_end
            (Text.lit "hi")),
       Text.preprocess_sentence Text.ascii_lower Text.ascii_normalize
         Text.ascii_category (Text.lit "hi"),
       List.map snd
         (greedy_steps Text.ascii_lower Text.ascii_normalize
            Text.ascii_category 2 3 1 three_words three_words silent_encoder decoder_end
            (Text.lit "hi"))
       ++ repeat (repeat 0 3)
            (2 - length
                   (greedy_steps Text.ascii_lower Text.ascii_normalize
                      Text.ascii_category 2 3 1 three_words three_words silent_encoder
                      decoder_end (Text.lit "hi")))).
Proof.
  apply (evaluate_greedy_returns Text.ascii_lower Text.ascii_normalize
           Text.ascii_category 2 3 1 three_words three_words silent_encoder decoder_end
           (Text.lit "hi")).
  - vm_compute. repeat econstructor.
  - exists 1%nat. reflexivity.
  - lia.
  - exact greedy_steps_hi_have_words.
Defined.

(** C7, as stated, fails when the decoder predicts the padding id: the
    words of ["hi"] are all in the input vocabulary, the greatest score
    is that of token 0, which has no word, and [evaluate] raises
    [KeyError: 0] instead of returning.  It also fails when
    [max_length_inp] is zero: the padding of the input raises. *)
Lemma evaluate_padding_id_raises :
  Forall (fun w => is_Some (word_index three_words !! w))
    (Text.split_space
       (Text.preprocess_sentence Text.ascii_lower Text.ascii_normalize
          Text.ascii_category (Text.lit "hi")))
  /\ evaluate Text.ascii_lower Text.ascii_normalize Text.ascii_category 2 3 1
       three_words three_words silent_encoder decoder_pad (Text.lit "hi")
     = Raises (KeyError (IntKey 0))
  /\ evaluate Text.ascii_lower Text.ascii_normalize Text.ascii_category 2 0 1
       three_words three_words silent_encoder decoder_end (Text.lit "hi")
     = Raises ValueError.
Proof.
  split; [exact words_hi_known|]. split.
  - unfold evaluate.
    rewrite (getitems_returns _ _ words_hi_known), bind_returns.
    rewrite pad_post_positive by lia. rewrite bind_returns. cbv zeta.
    unfold silent_encoder.
    rewrite (getitem_str_some (word_index three_words) (Text.lit "<start>")
               1%nat) by reflexivity.
    rewrite bind_returns.
    change (seq 0 2) with [0%nat; 1%nat].
    cbn [decode_loop]. unfold decoder_pad. cbv beta iota zeta.
    change (hd [] [[1; 0; 0; 0]]) with [1; 0; 0; 0].
    rewrite argmax_pad. reflexivity.
  - unfold evaluate.
    rewrite (getitems_returns _ _ words_hi_known), bind_returns.
    reflexivity.
Qed.

Lemma three_words_no_space (id : nat) (w : list N) :
  index_word three_words !! id = Some w -> ~ In 32%N w.
Proof.
  unfold three_words. cbn [index_word]. intros H.
  apply lookup_insert_Some in H.
  destruct H as [[_ <-]|[_ H]]; [vm_compute; intuition discriminate|].
  apply lookup_insert_Some in H.
  destruct H as [[_ <-]|[_ H]]; [vm_compute; intuition discriminate|].
  apply lookup_singleton_Some in H. destruct H as [_ <-].
  vm_compute; intuition discriminate.
Qed.

(** The statement of X8 at the sentence ["hi"]. *)
Lemma evaluate_returns_full_plot_witness :
  Text.preprocess_sentence Text.ascii_lower Text.ascii_normalize
    Text.ascii_category (Text.lit "hi")
  = Text.preprocess_sentence Text.ascii_lower Text.ascii_normalize
      Text.ascii_category (Text.lit "hi")
  /\ length
       (List.map snd
          (greedy_steps Text.ascii_lower Text.ascii_normalize
             Text.ascii_category 2 3 1 three_words three_words
             silent_encoder decoder_end (Text.lit "hi"))
        ++ repeat (repeat 0 3)
             (2 - length
                    (greedy_steps Text.ascii_lower Text.ascii_normalize
                       Text.ascii_category 2 3 1 three_words three_words
                       silent_encoder decoder_end (Text.lit "hi"))))
     = 2%nat.
Proof.
  apply (evaluate_returns_full_plot Text.ascii_lower Text.ascii_normalize
           Text.ascii_category 2 3 1 three_words three_words silent_encoder
           decoder_end (Text.lit "hi")
           (text_of three_words
              (greedy_steps Text.ascii_lower Text.ascii_normalize
                 Text.ascii_category 2 3 1 three_words three_words
                 silent_encoder decoder_end (Text.lit "hi")))).
  apply evaluate_returns_steps.
  - exact words_hi_known.
  - exists 1%nat. reflexivity.
  - lia.
  - exact greedy_steps_hi_have_words.
Defined.

(** The statement of X9 at the sentence ["hi"]: one decode step, two
    rows. *)
Lemma translate_plots_one_more_row_witness :
  exists printed plot,
    translate Text.ascii_lower Text.ascii_normalize Text.ascii_category
      2 3 1 three_words three_words silent_encoder decoder_end
      (Text.lit "hi")
    = Returns
        (printed,
         (plot,
          Text.split_space
            (Text.preprocess_sentence Text.ascii_lower Text.ascii_normalize
               Text.ascii_category (Text.lit "hi")),
          List.map (fun s => word_of three_words (fst s))
            (greedy_steps Text.ascii_lower Text.ascii_normalize
               Text.ascii_category 2 3 1 three_words three_words
               silent_encoder decoder_end (Text.lit "hi"))
          ++ [[]]))
    /\ length plot
       = Nat.min
           (S (length
                 (greedy_steps Text.ascii_lower Text.ascii_normalize
                    Text.ascii_category 2 3 1 three_words three_words
                    silent_encoder decoder_end (Text.lit "hi"))))
           2.
Proof.
  apply (translate_plots_one_more_row Text.ascii_lower Text.ascii_normalize
           Text.ascii_category 2 3 1 three_words three_words silent_encoder
           decoder_end (Text.lit "hi")).
  - exact words_hi_known.
  - exists 1%nat. reflexivity.
  - lia.
  - exact greedy_steps_hi_have_words.
  - exact three_words_no_space.
Defined.

(** The statement of X10 at the sentence ["123"]. *)
Lemma evaluate_empty_sentence_raises_witness :
  evaluate Text.ascii_lower Text.ascii_normalize Text.ascii_category 2 3 1
    three_words three_words silent_encoder decoder_end (Text.lit "123")
  = Raises (KeyError (StrKey [])).
Proof.
  apply (evaluate_empty_sentence_raises Text.ascii_lower Text.ascii_normalize
           Text.ascii_category 2 3 1 three_words three_words silent_encoder
           decoder_end (Text.lit "123")).
  - reflexivity.
  - exists 1%nat. reflexivity.
  - reflexivity.
Defined.

(** *** Padding and [convert] *)

(** The decimal digits of a number. *)
Definition decimal (n : nat) : list N :=
  Text.lit (NilEmpty.string_of_uint (Nat.to_uint n)).

(** The line [f'{t} ----> {word}']. *)
Definition convert_line (t : nat) (word : list N) : list N :=
  decimal t ++ Text.lit " ----> " ++ word.

(** [convert(lang, tensor)]: the lines printed, and the exception that
    ended the loop, if any. *)
Fixpoint convert (lang : Tokenizer) (tensor : list nat)
  : list (list N) * option exn :=
  match tensor with
  | [] => ([], None)
  | t :: tensor' =>
      if negb (Nat.eqb t 0)
      then match index_word lang !! t with
           | Some word =>
               let '(printed, raised) := convert lang tensor' in
               (convert_line t word :: printed, raised)
           | None => ([], Some (KeyError (IntKey t)))
           end
      else convert lang tensor'
  end.

Lemma convert_zeros (lang : Tokenizer) (n : nat) :
  convert lang (repeat 0%nat n) = ([], None).
Proof. induction n as [|n IH]; [reflexivity|exact IH]. Qed.

Lemma convert_app_zeros (lang : Tokenizer) (tensor : list nat) (n : nat) :
  convert lang (tensor ++ repeat 0%nat n) = convert lang tensor.
Proof.
  induction tensor as [|t tensor IH]; [apply convert_zeros|].
  simpl. destruct (Nat.eqb t 0); simpl; [exact IH|].
  destruct (index_word lang !! t); [|reflexivity]. now rewrite IH.
Qed.

(** X12.  [convert] prints nothing for the padding id: zeros after a
    sequence do not change what it prints, so a sequence that fits is
    padded to a row that prints the same lines. *)
Theorem convert_skips_padding (lang : Tokenizer) (tensor : list nat)
    (maxlen : nat) :
  (length tensor <= maxlen)%nat ->
  exists row,
    pad_post maxlen tensor = Returns row
    /\ convert lang row = convert lang tensor.
Proof.
  intros Hle. eexists. split; [now apply pad_post_fits|].
  apply convert_app_zeros.
Qed.

(** X13.  Round trip through the two dictionaries: when every word of
    a list has an id other than zero in [word_index] and [index_word]
    gives the word back for that id, looking the words up succeeds and
    [convert] prints, for the ids found, one line for each word, in
    order, with the id and the word. *)
Theorem convert_prints_words (lang : Tokenizer) (words : list (list N)) :
  Forall (fun w => exists i, word_index lang !! w = Some i
                             /\ i <> 0%nat
                             /\ index_word lang !! i = Some w) words ->
  exists ids,
    getitems (word_index lang) words = Returns ids
    /\ convert lang ids = (zip_with convert_line ids words, None).
Proof.
  induction 1 as [|w words (i & Hi & Hnz & Hw) _ (ids & Hids & Hconv)].
  - exists []. split; reflexivity.
  - exists (i :: ids). split.
    + simpl. now rewrite (getitem_str_some _ _ _ Hi), bind_returns, Hids.
    + simpl. apply Nat.eqb_neq in Hnz. rewrite Hnz. simpl.
      now rewrite Hw, Hconv.
Qed.

(** X14.  [convert] stops at the first id other than zero that has no
    word: the lines of the ids before it have been printed and the
    [KeyError] of that id is raised. *)
Theorem convert_missing_id (lang : Tokenizer) (before after : list nat)
    (t : nat) :
  Forall (fun i => i = 0%nat \/ is_Some (index_word lang !! i)) before ->
  t <> 0%nat ->
  index_word lang !! t = None ->
  convert lang (before ++ t :: after)
  = (fst (convert lang before), Some (KeyError (IntKey t))).
Proof.
  intros Hbefore Hnz Hnone.
  induction Hbefore as [|i before Hi _ IH]; simpl.
  - apply Nat.eqb_neq in Hnz. now rewrite Hnz, Hnone.
  - destruct (Nat.eqb_spec i 0) as [->|Hne]; simpl; [exact IH|].
    destruct Hi as [Hi|[word Hword]]; [congruence|].
    rewrite Hword, IH. destruct (convert lang before). reflexivity.
Qed.

(** The statement of X12 at a sequence of three ids padded to five. *)
Lemma convert_skips_padding_witness :
  exists row,
    pad_post 5 [1%nat; 3%nat; 2%nat] = Returns row
    /\ convert three_words row = convert three_words [1%nat; 3%nat; 2%nat].
Proof.
  apply (convert_skips_padding three_words [1%nat; 3%nat; 2%nat] 5).
  simpl. lia.
Defined.

(** The statement of X13 at the words of ["<start> hi <end>"]. *)
Lemma convert_prints_words_witness :
  exists ids,
    getitems (word_index three_words)
      [Text.lit "<start>"; Text.lit "hi"; Text.lit "<end>"]
    = Returns ids
    /\ convert three_words ids
       = (zip_with convert_line ids
            [Text.lit "<start>"; Text.lit "hi"; Text.lit "<end>"], None).
Proof.
  apply (convert_prints_words three_words
           [Text.lit "<start>"; Text.lit "hi"; Text.lit "<end>"]).
  repeat constructor.
  - exists 1%nat. repeat split. discriminate.
  - exists 3%nat. repeat split. discriminate.
  - exists 2%nat. repeat split. discriminate.
Defined.

(** The statement of X14 at an id without a word after a known one. *)
Lemma convert_missing_id_witness :
  convert three_words ([1%nat; 0%nat] ++ 7%nat :: [2%nat])
  = (fst (convert three_words [1%nat; 0%nat]), Some (KeyError (IntKey 7))).
Proof.
  apply (convert_missing_id three_words [1%nat; 0%nat] [2%nat] 7).
  - apply List.Forall_cons; [right; eexists; reflexivity|].
    apply List.Forall_cons; [now left|]. apply List.Forall_nil.
  - discriminate.
  - reflexivity.
Defined.

End Translate.

(** ** Checkpoints *)

Module Checkpointing.

Import Py.

Definition EPOCHS : nat := 10.

Section Checkpoint.

Variables value opt : Type.

Abbreviation TrainState := (Training.TrainState value opt).
Abbreviation encoder_variables := (Training.encoder_variables value opt).
Abbreviation decoder_variables := (Training.decoder_variables value opt).
Abbreviation optimizer_state := (Training.optimizer_state value opt).

(** One epoch of training, by its index: what the loop over the batches
    does to the variables and to the optimizer. *)
Variable run_epoch : nat -> TrainState -> TrainState.

(** The objects that [tf.train.Checkpoint(optimizer=optimizer,
    encoder=encoder, decoder=decoder)] is given, and the number of saves
    made through the checkpoint object. *)
Record Program : Type := {
  model : TrainState;
  save_counter : nat
}.

(** Modelled from the spec: the content of a checkpoint file, which the
    framework writes (its file format is not part of the notebook): a
    serialized snapshot of the model parameters and of the optimizer
    state. *)
Record Snapshot : Type := {
  saved_optimizer : opt;
  saved_encoder : list value;
  saved_decoder : list value
}.

(** The checkpoint directory: the files [ckpt-n] by their number, and
    the number that the directory records as the latest. *)
Record Directory : Type := {
  files : gmap nat Snapshot;
  latest : option nat
}.

Definition snapshot_of (m : TrainState) : Snapshot :=
  {| saved_optimizer := optimizer_state m;
     saved_encoder := encoder_variables m;
     saved_decoder := decoder_variables m |}.

Definition model_of (s : Snapshot) : TrainState :=
  {| Training.encoder_variables := saved_encoder s;
     Training.decoder_variables := saved_decoder s;
     Training.optimizer_state := saved_optimizer s |}.

(** Modelled from the spec: [tf.train.Checkpoint.save], a method of the
    framework.  [checkpoint.save(file_prefix=checkpoint_prefix)] counts
    the save, writes the snapshot of the objects to the file of that
    number, and the directory records it as the latest. *)
Definition save (p : Program) (dir : Directory) : Program * Directory :=
  let n := S (save_counter p) in
  ({| model := model p; save_counter := n |},
   {| files := <[n := snapshot_of (model p)]> (files dir);
      latest := Some n |}).

(** Modelled from the spec: [tf.train.latest_checkpoint], a function of
    the framework: the checkpoint that the directory records as the
    latest, if any. *)
Definition latest_checkpoint (dir : Directory) : option nat := latest dir.

(** Modelled from the spec: [tf.train.Checkpoint.restore], a method of
    the framework.  Without a path nothing is restored; otherwise the
    objects take the values of the snapshot in the file. *)
Definition restore (p : Program) (dir : Directory) (save_path : option nat)
  : outcome Program :=
  match save_path with
  | None => Returns p
  | Some n =>
      match files dir !! n with
      | Some s =>
          Returns {| model := model_of s; save_counter := save_counter p |}
      | None => Raises NotFoundError
      end
  end.

(** The body of the training loop at one epoch: the batches are
    trained on, and every second epoch the checkpoint is saved. *)
Definition epoch_body (st : Program * Directory) (epoch : nat)
  : Program * Directory :=
  let '(p, dir) := st in
  let p := {| model := run_epoch epoch (model p);
              save_counter := save_counter p |} in
  if Nat.eqb ((epoch + 1) mod 2) 0 then save p dir else (p, dir).

Definition training_loop (epochs : nat) (p : Program) (dir : Directory)
  : Program * Directory :=
  fold_left epoch_body (seq 0 epochs) (p, dir).

(** The model after the first [e] epochs. *)
Definition trained (e : nat) (m : TrainState) : TrainState :=
  fold_left (fun m epoch => run_epoch epoch m) (seq 0 e) m.

(** *** Save and restore *)

Lemma model_of_snapshot_of (m : TrainState) : model_of (snapshot_of m) = m.
Proof. destruct m as [e d o]. reflexivity. Qed.

Lemma restore_latest_after_save (p later : Program) (dir : Directory) :
  restore later (save p dir).2 (latest_checkpoint (save p dir).2)
  = Returns {| model := model p; save_counter := save_counter later |}.
Proof.
  unfold save, restore, latest_checkpoint. cbn [fst snd files latest].
  rewrite lookup_insert_eq. now rewrite model_of_snapshot_of.
Qed.

Lemma trained_S (e : nat) (m : TrainState) :
  trained (S e) m = run_epoch e (trained e m).
Proof. unfold trained. now rewrite seq_S, fold_left_app. Qed.

Lemma half_step (e : nat) :
  (Nat.eqb ((e + 1) mod 2) 0 = true
   /\ ((e + 1) / 2 = S (e / 2))%nat /\ (2 * ((e + 1) / 2) = e + 1)%nat)
  \/ (Nat.eqb ((e + 1) mod 2) 0 = false /\ ((e + 1) / 2 = e / 2)%nat).
Proof.
  pose proof (Nat.div_mod_eq e 2) as He.
  pose proof (Nat.div_mod_eq (e + 1) 2) as He1.
  pose proof (Nat.mod_upper_bound e 2 ltac:(lia)) as Hm.
  pose proof (Nat.mod_upper_bound (e + 1) 2 ltac:(lia)) as Hm1.
  destruct (Nat.eqb_spec ((e + 1) mod 2) 0) as [Hz|Hnz]; [left|right];
    repeat split; lia.
Qed.

Lemma training_loop_S (e : nat) (p : Program) (dir : Directory) :
  training_loop (S e) p dir = epoch_body (training_loop e p dir) e.
Proof. unfold training_loop. now rewrite seq_S, fold_left_app. Qed.

(** The training loop after [e] epochs: the model has been trained for
    [e] epochs, [e / 2] checkpoints have been saved, the [k]-th of them
    holds the model as it was after [2 * k] epochs, and the last one is
    recorded as the latest. *)
Lemma training_loop_after (e : nat) (p : Program) (dir : Directory) :
  model (training_loop e p dir).1 = trained e (model p)
  /\ save_counter (training_loop e p dir).1 = (save_counter p + e / 2)%nat
  /\ (forall k, (1 <= k <= e / 2)%nat ->
        files (training_loop e p dir).2 !! (save_counter p + k)%nat
        = Some (snapshot_of (trained (2 * k) (model p))))
  /\ latest (training_loop e p dir).2
     = (if Nat.eqb (e / 2) 0 then latest dir
        else Some (save_counter p + e / 2)%nat).
Proof.
  induction e as [|e (IHm & IHc & IHf & IHl)].
  - cbn. repeat split; [lia|]. intros k Hk. lia.
  - rewrite training_loop_S.
    destruct (training_loop e p dir) as [p' dir'].
    cbn [fst snd] in IHm, IHc, IHf, IHl. unfold epoch_body.
    replace (S e) with (e + 1)%nat by lia.
    replace (e + 1)%nat with (S e) at 2 by lia. rewrite trained_S.
    destruct (half_step e) as [(Hz & Hd & Hd2)|(Hnz & Hd)].
    + rewrite Hz, Hd. unfold save.
      cbn [fst snd model save_counter files latest].
      rewrite IHm, IHc.
      replace (S (save_counter p + e / 2)) with (save_counter p + S (e / 2))%nat
        by lia.
      repeat split.
      intros k Hk. destruct (decide (k = S (e / 2))) as [->|Hne].
      * rewrite lookup_insert_eq.
        rewrite <- Hd, Hd2. replace (e + 1)%nat with (S e) by lia.
        now rewrite trained_S.
      * rewrite lookup_insert_ne by lia. apply IHf. lia.
    + rewrite Hnz, Hd. cbn [fst snd model save_counter].
      rewrite IHm. repeat split; assumption.
Qed.

(** C5.  A save writes the state of the optimizer and the variables of
    the encoder and of the decoder, as they are, to the file that the
    directory then records as the latest, and restoring the latest
    checkpoint later, whatever the model has become, gives back the
    model of the save.  The training loop of ten epochs saves after every
    second epoch, five times, the model of that moment; restoring the
    latest checkpoint after training gives the model as trained. *)
Theorem checkpoint_save_restore_round_trip (p : Program) (dir : Directory) :
  (model (save p dir).1 = model p
   /\ (exists n s,
         latest_checkpoint (save p dir).2 = Some n
         /\ files (save p dir).2 !! n = Some s
         /\ saved_optimizer s = optimizer_state (model p)
         /\ saved_encoder s = encoder_variables (model p)
         /\ saved_decoder s = decoder_variables (model p))
   /\ forall later : Program,
        restore later (save p dir).2 (latest_checkpoint (save p dir).2)
        = Returns {| model := model p; save_counter := save_counter later |})
  /\ (model (training_loop EPOCHS p dir).1 = trained EPOCHS (model p)
      /\ save_counter (training_loop EPOCHS p dir).1
         = (save_counter p + 5)%nat
      /\ (forall k, (1 <= k <= 5)%nat ->
            files (training_loop EPOCHS p dir).2 !! (save_counter p + k)%nat
            = Some (snapshot_of (trained (2 * k) (model p))))
      /\ forall later : Program,
           restore later (training_loop EPOCHS p dir).2
             (latest_checkpoint (training_loop EPOCHS p dir).2)
           = Returns {| model := trained EPOCHS (model p);
                        save_counter := save_counter later |}).
Proof.
  split.
  - split; [reflexivity|]. split.
    + exists (S (save_counter p)), (snapshot_of (model p)).
      unfold save, latest_checkpoint. cbn [fst snd files latest].
      rewrite lookup_insert_eq. repeat split.
    + intros later. apply restore_latest_after_save.
  - destruct (training_loop_after EPOCHS p dir) as (Hm & Hc & Hf & Hl).
    change (EPOCHS / 2)%nat with 5%nat in Hc, Hf, Hl.
    change (Nat.eqb 5 0) with false in Hl. cbv iota in Hl.
    repeat split; try assumption.
    intros later. unfold restore, latest_checkpoint. rewrite Hl.
    rewrite (Hf 5%nat) by lia.
    change (2 * 5)%nat with EPOCHS. now rewrite model_of_snapshot_of.
Qed.

(** X15.  For any number of epochs: after at least two epochs, restoring
    the latest checkpoint gives the model as it was after the last
    epoch of even number, so the training of a last odd epoch is not in
    it; after fewer than two epochs nothing has been saved and the
    directory is as it was. *)
Theorem restore_after_training_any_epochs (e : nat) (p later : Program)
    (dir : Directory) :
  ((2 <= e)%nat ->
   restore later (training_loop e p dir).2
     (latest_checkpoint (training_loop e p dir).2)
   = Returns {| model := trained (2 * (e / 2)) (model p);
                save_counter := save_counter later |})
  /\ ((e < 2)%nat -> (training_loop e p dir).2 = dir).
Proof.
  split.
  - intros He.
    destruct (training_loop_after e p dir) as (_ & _ & Hf & Hl).
    assert (Hhalf : (1 <= e / 2)%nat).
    { pose proof (Nat.div_mod_eq e 2).
      pose proof (Nat.mod_upper_bound e 2 ltac:(lia)). lia. }
    unfold restore, latest_checkpoint. rewrite Hl.
    destruct (Nat.eqb_spec (e / 2) 0) as [Hz|_]; [lia|].
    rewrite (Hf (e / 2)%nat) by lia.
    now rewrite model_of_snapshot_of.
  - intros He. destruct e as [|[|e]]; [reflexivity|reflexivity|lia].
Qed.

End Checkpoint.

End Checkpointing.

(** ** The dataset: [create_dataset] *)

Module Dataset.

Import Text.
Local Open Scope N_scope.

(** [s.split(sep)] for a separator of one character. *)
Fixpoint split_on (sep : N) (w : list N) : list (list N) :=
  match w with
  | [] => [[]]
  | c :: w' =>
      if c =? sep then [] :: split_on sep w'
      else match split_on sep w' with
           | [] => [[c]]
           | x :: xs => (c :: x) :: xs
           end
  end.

(** The length of the shortest row. *)
Definition shortest {A : Type} (rows : list (list A)) : nat :=
  match rows with
  | [] => 0%nat
  | row :: rows' =>
      fold_right (fun r n => Nat.min (length r) n) (length row) rows'
  end.

(** [zip] with the rows as its arguments: the tuple of the first
    entries, the tuple of the second entries, and so on until the
    shortest row ends. *)
Definition zip_star (rows : list (list (list N))) : list (list (list N)) :=
  List.map (fun j => List.map (fun row => nth j row []) rows)
    (seq 0 (shortest rows)).

(** [lines[:num_examples]], where [num_examples] may be [None]. *)
Definition first_examples {A : Type} (num_examples : option nat)
    (lines : list A) : list A :=
  match num_examples with
  | None => lines
  | Some n => take n lines
  end.

Section CreateDataset.

Variable lower : list N -> list N.
Variable normalize : string -> list N -> list N.
Variable category : N -> string.

(** [create_dataset], from the text of the file. *)
Definition create_dataset (content : list N) (num_examples : option nat)
  : list (list (list N)) :=
  let lines := split_on 10 (strip content) in
  let word_pairs :=
    List.map
      (fun line =>
         List.map (preprocess_sentence lower normalize category)
           (split_on 9 line))
      (first_examples num_examples lines) in
  zip_star word_pairs.

Lemma shortest_all (n : nat) (rows : list (list (list N))) :
  rows <> [] -> Forall (fun row => length row = n) rows ->
  shortest rows = n.
Proof.
  intros Hne Hrows. destruct rows as [|row rows]; [congruence|].
  inversion Hrows as [|? ? Hrow Hrest]; subst. simpl.
  clear Hne Hrows. induction Hrest as [|r rows Hr _ IH]; simpl;
    [reflexivity|]. rewrite IH, Hr. lia.
Qed.

(** X16.  For a file in which every line considered has two fields
    separated by a tab, [create_dataset] returns two tuples: the
    preprocessed first fields and the preprocessed second fields, one
    sentence for every line, in the order of the file; [num_examples]
    limits the lines considered. *)
Theorem create_dataset_two_columns (content : list N)
    (num_examples : option nat) :
  first_examples num_examples (split_on 10 (strip content)) <> [] ->
  Forall (fun line => length (split_on 9 line) = 2%nat)
    (first_examples num_examples (split_on 10 (strip content))) ->
  create_dataset content num_examples
  = [List.map
       (fun line =>
          preprocess_sentence lower normalize category
            (nth 0 (split_on 9 line) []))
       (first_examples num_examples (split_on 10 (strip content)));
     List.map
       (fun line =>
          preprocess_sentence lower normalize category
            (nth 1 (split_on 9 line) []))
       (first_examples num_examples (split_on 10 (strip content)))].
Proof.
  intros Hne Hfields. unfold create_dataset. cbv zeta.
  set (lines := first_examples num_examples (split_on 10 (strip content)))
    in *.
  unfold zip_star. rewrite (shortest_all 2).
  - cbn [seq List.map]. rewrite !List.map_map.
    f_equal; [|f_equal]; apply List.map_ext_in; intros line Hline;
      rewrite List.Forall_forall in Hfields; specialize (Hfields line Hline);
      destruct (split_on 9 line) as [|a [|b [|c fields]]];
      try discriminate; reflexivity.
  - destruct lines; [congruence|discriminate].
  - apply List.Forall_forall. intros row Hrow.
    apply List.in_map_iff in Hrow. destruct Hrow as (line & <- & Hline).
    rewrite List.length_map.
    rewrite List.Forall_forall in Hfields. now apply Hfields.
Qed.

End CreateDataset.

(** Two lines of the file, English first. *)
Definition two_lines : list N :=
  lit "Go." ++ [9] ++ lit "Ve." ++ [10] ++ lit "Hi." ++ [9] ++ lit "Hola."
  ++ [10].

(** The statement of X16 at a file of two lines. *)
Lemma create_dataset_two_columns_witness :
  create_dataset ascii_lower ascii_normalize ascii_category two_lines None
  = [[lit "<start> go . <end>"; lit "<start> hi . <end>"];
     [lit "<start> ve . <end>"; lit "<start> hola . <end>"]].
Proof.
  apply (create_dataset_two_columns ascii_lower ascii_normalize
           ascii_category two_lines None).
  - vm_compute. discriminate.
  - vm_compute. repeat constructor.
Defined.

End Dataset.
